(** * commit-action: a shallow embedding and its verification

    The development follows the TypeScript sources of the action:

    - [getRepoFiles.ts]  : [base58Encode], [getRepoFiles]
    - [createCommit.ts]  : [createCommit]
    - [input.ts]         : the [getInput*] resolvers
    - [index.ts]         : [checkFilesExist],
                           [generateDefaultCommitMessageBody], [main]

    JavaScript strings are sequences of UTF-16 code units; a code unit is
    modelled as an [N].  A [Uint8Array] is a [list byte].  A [BigInt] is a
    [Z].  Optional object fields ([undefined] when absent) are [option]s.

    The action talks to its platform through [core.getInput], the
    environment, [fs], [glob] and the transport [requestGraphQL]; these are
    the fields of the record [World].  A computation returns the events it
    emitted together with its value or the value it threw.  The
    environment variables have the type [string] that [index.ts] declares
    for them, and the answers of the transport have the declared response
    types. *)

From Stdlib Require Import ZArith NArith List Ascii String Lia Bool.
From Stdlib.Strings Require Import Byte.
From stdpp Require Import base list gmap.

Local Open Scope Z_scope.

(** ** JavaScript strings *)

Module Js.

(** A string of UTF-16 code units. *)
Abbreviation jsstring := (list N).

(** Literal: the code units of an ASCII text. *)
Definition js (s : string) : jsstring :=
  map N_of_ascii (list_ascii_of_string s).

Definition LF : N := 10%N.
Definition CR : N := 13%N.
Definition QUOTE : N := 34%N.
Definition BACKSLASH : N := 92%N.
Definition SLASH : N := 47%N.

Definition str_eqb (a b : jsstring) : bool := bool_decide (a = b).

(** A value interpolated in a template literal: [undefined] prints as
    the text [undefined]. *)
Definition tpl (v : option jsstring) : jsstring :=
  match v with
  | Some s => s
  | None => js "undefined"
  end.

(** [Array.prototype.join]. *)
Fixpoint join (sep : jsstring) (parts : list jsstring) : jsstring :=
  match parts with
  | [] => []
  | [p] => p
  | p :: rest => p ++ sep ++ join sep rest
  end.

(** White space and line terminators, as [String.prototype.trim] and the
    regular expression class [\s] know them. *)
Definition is_ws (c : N) : bool :=
  ((9 <=? c) && (c <=? 13) || (c =? 32) || (c =? 160) || (c =? 5760)
   || (8192 <=? c) && (c <=? 8202) || (c =? 8232) || (c =? 8233)
   || (c =? 8239) || (c =? 8287) || (c =? 12288) || (c =? 65279))%N.

Fixpoint trimStart (s : jsstring) : jsstring :=
  match s with
  | c :: r => if is_ws c then trimStart r else s
  | [] => []
  end.

Definition trimEnd (s : jsstring) : jsstring := rev (trimStart (rev s)).

Definition trim (s : jsstring) : jsstring := trimEnd (trimStart s).

(** Puts a code unit in front of the first segment. *)
Definition cons_seg (c : N) (segs : list jsstring) : list jsstring :=
  match segs with
  | seg :: rest => (c :: seg) :: rest
  | [] => [[c]]
  end.

(** [s.split(sep)] for a separator of one code unit, also
    [s.split(/\n/g)]: never an empty array. *)
Fixpoint split_on (sep : N) (s : jsstring) : list jsstring :=
  match s with
  | [] => [[]]
  | c :: r =>
      if (c =? sep)%N then [] :: split_on sep r
      else cons_seg c (split_on sep r)
  end.

(** [s.split(/\r?\n/g)]: a CR right before an LF belongs to the
    separator. *)
Fixpoint split_lines (s : jsstring) : list jsstring :=
  match s with
  | [] => [[]]
  | c :: r =>
      if (c =? LF)%N then [] :: split_lines r
      else if (c =? CR)%N && bool_decide (head r = Some LF) then split_lines r
      else cons_seg c (split_lines r)
  end.

Definition hexdigits : jsstring := js "0123456789abcdef".

Definition hexdigit (d : N) : jsstring :=
  match hexdigits !! N.to_nat d with
  | Some c => [c]
  | None => []
  end.

(** The escape [\uXXXX] of a code unit, lower-case digits. *)
Definition unicode_escape (c : N) : jsstring :=
  (BACKSLASH :: js "u") ++ hexdigit (c / 4096 mod 16) ++ hexdigit (c / 256 mod 16)
    ++ hexdigit (c / 16 mod 16) ++ hexdigit (c mod 16).

Definition is_high_surrogate (c : N) : bool := ((55296 <=? c) && (c <=? 56319))%N.
Definition is_low_surrogate (c : N) : bool := ((56320 <=? c) && (c <=? 57343))%N.

(** One code unit that is not a surrogate, inside a JSON string. *)
Definition quote_unit (c : N) : jsstring :=
  if (c =? 8)%N then BACKSLASH :: js "b"
  else if (c =? 9)%N then BACKSLASH :: js "t"
  else if (c =? 10)%N then BACKSLASH :: js "n"
  else if (c =? 12)%N then BACKSLASH :: js "f"
  else if (c =? 13)%N then BACKSLASH :: js "r"
  else if (c =? QUOTE)%N then [BACKSLASH; QUOTE]
  else if (c =? BACKSLASH)%N then [BACKSLASH; BACKSLASH]
  else if (c <? 32)%N then unicode_escape c
  else [c].

(** The body of [QuoteJSONString]: a surrogate pair is kept, a lone
    surrogate is escaped. *)
Fixpoint quote_units (s : jsstring) : jsstring :=
  match s with
  | [] => []
  | c :: r =>
      if is_high_surrogate c then
        match r with
        | d :: r' =>
            if is_low_surrogate d then c :: d :: quote_units r'
            else unicode_escape c ++ quote_units r
        | [] => unicode_escape c
        end
      else if is_low_surrogate c then unicode_escape c ++ quote_units r
      else quote_unit c ++ quote_units r
  end.

(** [JSON.stringify] of a string. *)
Definition JSON_stringify_string (s : jsstring) : jsstring :=
  [QUOTE] ++ quote_units s ++ [QUOTE].

(** [JSON.stringify] of an array of strings. *)
Definition JSON_stringify_strings (l : list jsstring) : jsstring :=
  js "[" ++ join (js ",") (map JSON_stringify_string l) ++ js "]".

End Js.
Import Js.

(** ** base58Encode (getRepoFiles.ts) *)

Module Base58.

Definition B58ALPHANUM : jsstring :=
  js "123456789ABCDEFGHJKLMNPQRSTUVWXYZabcdefghijkmnopqrstuvwxyz".

(** The parameter type [string | Uint8Array]. *)
Inductive input_t : Type :=
| InString (s : jsstring)
| InBytes (b : list byte).

Definition input_length (i : input_t) : nat :=
  match i with
  | InString s => length s
  | InBytes b => length b
  end.

(** Storing a number into a [Uint8Array] keeps its low eight bits. *)
Definition to_uint8 (c : N) : byte :=
  match Byte.of_N (c mod 256)%N with
  | Some b => b
  | None => Byte.x00
  end.

(** [new Uint8Array(input.split('').map((c) => c.charCodeAt(0)))] *)
Definition as_bytes (i : input_t) : list byte :=
  match i with
  | InString s => map to_uint8 s
  | InBytes b => b
  end.

(** [c.toString(16).padStart(2, '0')] for a byte [c]. *)
Definition hex2 (c : byte) : jsstring :=
  let n := Byte.to_N c in
  let s := if (n <? 16)%N then hexdigit n
           else hexdigit (n / 16) ++ hexdigit (n mod 16) in
  repeat 48%N (2 - length s) ++ s.

Definition hex_of_bytes (bs : list byte) : jsstring :=
  fold_left (fun hex c => hex ++ hex2 c) bs [].

(** Value of one hexadecimal digit, as [BigInt('0x...')] reads it. *)
Definition hexval (c : N) : Z :=
  if ((48 <=? c) && (c <=? 57))%N then Z.of_N c - 48
  else if ((97 <=? c) && (c <=? 102))%N then Z.of_N c - 87
  else if ((65 <=? c) && (c <=? 70))%N then Z.of_N c - 55
  else 0.

(** [BigInt('0x' + hex)] *)
Definition bigint_of_hex (hex : jsstring) : Z :=
  fold_left (fun acc c => acc * 16 + hexval c) hex 0.

(** [B58ALPHANUM[mod]]; an index out of range reads [undefined], which
    [join] prints as the empty string. *)
Definition alphabet_at (m : Z) : jsstring :=
  match B58ALPHANUM !! Z.to_nat m with
  | Some c => [c]
  | None => []
  end.

(** [while (x > 0) { mod = x % 58n; x = x / 58n; output.push(...) }].
    The loop runs on a fuel; [encode_fuel] below is enough for it to
    leave on [x = 0] (lemma [digits_loop_fuel]). *)
Fixpoint digits_loop (fuel : nat) (x : Z) (output : list jsstring)
  : list jsstring :=
  match fuel with
  | O => output
  | S fuel' =>
      if x >? 0 then
        let mod_ := x mod 58 in
        let x' := x / 58 in
        digits_loop fuel' x' (output ++ [alphabet_at mod_])
      else output
  end.

Definition encode_fuel (x : Z) : nat := S (Z.to_nat (Z.log2 x)).

(** [for (let i = 0; input[i] === 0; i++) output.push(B58ALPHANUM[0])] *)
Fixpoint zeros_loop (input : list byte) (output : list jsstring)
  : list jsstring :=
  match input with
  | b :: rest =>
      if (Byte.to_N b =? 0)%N
      then zeros_loop rest (output ++ [alphabet_at 0])
      else output
  | [] => output
  end.

Definition base58Encode (input : input_t) : jsstring :=
  if Nat.eqb (input_length input) 0 then []
  else
    let input := as_bytes input in
    let hex := hex_of_bytes input in
    let x := bigint_of_hex hex in
    let output := digits_loop (encode_fuel x) x [] in
    let output := zeros_loop input output in
    join [] (rev output).

End Base58.

(** ** Plain objects used as dictionaries *)

Module JsObject.

Definition is_digit (c : N) : bool := ((48 <=? c) && (c <=? 57))%N.

Definition decimal_value (s : jsstring) : N :=
  fold_left (fun acc c => acc * 10 + (c - 48))%N s 0%N.

(** A property name is an array index when it is the canonical decimal
    text of an integer below [2^32 - 1]. *)
Definition array_index (k : jsstring) : option N :=
  match k with
  | [] => None
  | c :: r =>
      if forallb is_digit k
         && (negb (c =? 48)%N || bool_decide (r = []))
         && (decimal_value k <? 4294967295)%N
      then Some (decimal_value k)
      else None
  end.

Definition is_index (k : jsstring) : bool :=
  match array_index k with Some _ => true | None => false end.

Definition index_of (k : jsstring) : N := default 0%N (array_index k).

(** The own properties, in creation order. *)
Definition t (V : Type) : Type := list (jsstring * V).

Definition empty {V : Type} : t V := [].

(** [o[k]] for an own property. *)
Fixpoint get {V : Type} (o : t V) (k : jsstring) : option V :=
  match o with
  | [] => None
  | (k', v') :: r => if str_eqb k' k then Some v' else get r k
  end.

(** Defines or overwrites the own property [k]; an existing property
    keeps its place. *)
Fixpoint set {V : Type} (o : t V) (k : jsstring) (v : V) : t V :=
  match o with
  | [] => [(k, v)]
  | (k', v') :: r =>
      if str_eqb k' k then (k', v) :: r else (k', v') :: set r k v
  end.

(** [o[k] = v] with [v] a string: the name [__proto__] reaches the
    prototype setter, which ignores a value that is not an object. *)
Definition assign {V : Type} (o : t V) (k : jsstring) (v : V) : t V :=
  if str_eqb k (js "__proto__") then o else set o k v.

Fixpoint insert_key (k : jsstring) (sorted : list jsstring) : list jsstring :=
  match sorted with
  | [] => [k]
  | k' :: r =>
      if (index_of k <=? index_of k')%N then k :: sorted
      else k' :: insert_key k r
  end.

Definition sort_keys (ks : list jsstring) : list jsstring :=
  foldr insert_key [] ks.

(** [Object.keys(o)]: array indices in ascending order, then the other
    names in creation order. *)
Definition keys {V : Type} (o : t V) : list jsstring :=
  let ks := map fst o in
  sort_keys (List.filter is_index ks)
    ++ List.filter (fun k => negb (is_index k)) ks.

End JsObject.

(** ** Effects: thrown values, the trace and the platform *)

(** What a [throw] or a rejected promise carries: an [Error] instance with
    its message, or any other value. *)
Inductive thrown : Type :=
| ThrowError (message : jsstring)
| ThrowOther (value : jsstring).

Inductive result (A : Type) : Type :=
| Ok (a : A)
| Throw (e : thrown).
Arguments Ok {A} a.
Arguments Throw {A} e.

(** [RepositoryType] (input.ts).  A field holds [undefined] when the
    destructured segment is missing. *)
Record RepositoryType : Type := {
  owner : option jsstring;
  repository : option jsstring
}.

(** [RepoFilesActionType] (getRepoFiles.ts) *)
Record RepoFilesActionType : Type := {
  createFiles : option (list jsstring);
  modifyFiles : option (list jsstring);
  deleteFiles : option (list jsstring)
}.

(** [RepoFilesQueryResponseType]: the object at
    [data.repository.ref.target], alias to [{type}] or [null]. *)
Record RepoFilesQueryResponseType : Type := {
  target : gmap jsstring (option jsstring)
}.

(** [CommitMessageType] (createCommit.ts) *)
Record CommitMessageType : Type := {
  default_ : option bool;
  headline : jsstring;
  body : option jsstring
}.

Record CommitFileChangeType : Type := {
  path : jsstring;
  contents : option jsstring
}.

Record CommitFileChangesType : Type := {
  additions : option (list CommitFileChangeType);
  deletions : option (list CommitFileChangeType)
}.

Record CreateCommitInputType : Type := {
  branchName : jsstring;
  repositoryNameWithOwner : jsstring;
  message : CommitMessageType;
  fileChanges : CommitFileChangesType;
  expectedHeadOid : jsstring
}.

Record CommitErrorType : Type := {
  error_type : jsstring;
  error_path : list jsstring;
  error_locations : list (Z * Z);
  error_message : jsstring
}.

(** [CreateCommitResponseType]: [data] is the commit url or [null]. *)
Record CreateCommitResponseType : Type := {
  data : option jsstring;
  errors : option (list CommitErrorType)
}.

(** What the run does to the outside.  [core.debug] diagnostics are not
    recorded.  A request is recorded with what [requestGraphQL] is given:
    the token and the query text, and for the mutation the [input] object
    of the variables, before [JSON.stringify]. *)
Inductive event : Type :=
| EvInfo (msg : jsstring)
| EvSetFailed (msg : jsstring)
| EvSetSecret (secret : jsstring)
| EvQuery (token query : jsstring)
| EvMutation (token query : jsstring) (input : CreateCommitInputType).

(** The platform the action runs on: the inputs as [core.getInput]
    returns them, the environment, the file system and the transport. *)
Record World : Type := {
  getInput : jsstring -> jsstring;
  GITHUB_REF_NAME : jsstring;
  GITHUB_REPOSITORY : jsstring;
  GITHUB_SHA : jsstring;
  GITHUB_TOKEN : jsstring;
  existsSync : jsstring -> bool;
  readFileSync_utf8 : jsstring -> result jsstring;
  readFileSync_base64 : jsstring -> result jsstring;
  globSync : jsstring -> result (list jsstring);
  requestQuery : jsstring -> jsstring -> result RepoFilesQueryResponseType;
  requestMutation :
    jsstring -> jsstring -> CreateCommitInputType -> result CreateCommitResponseType
}.

(** A computation: the events it emitted and how it ended. *)
Definition M (A : Type) : Type := list event * result A.

Definition ret {A : Type} (a : A) : M A := ([], Ok a).

Definition bind {A B : Type} (c : M A) (k : A -> M B) : M B :=
  match c with
  | (t, Ok a) => let '(t', r) := k a in (t ++ t', r)
  | (t, Throw e) => (t, Throw e)
  end.

Definition throw {A : Type} (e : thrown) : M A := ([], Throw e).

Definition throwError {A : Type} (msg : jsstring) : M A := throw (ThrowError msg).

Definition emit (e : event) : M unit := ([e], Ok tt).

Definition lift {A : Type} (r : result A) : M A := ([], r).

(** [try { c } catch (e) { h e }] *)
Definition try_catch {A : Type} (c : M A) (h : thrown -> M A) : M A :=
  match c with
  | (t, Ok a) => (t, Ok a)
  | (t, Throw e) => let '(t', r) := h e in (t ++ t', r)
  end.

Declare Scope action_scope.
Delimit Scope action_scope with action.
Notation "x <- c ;; k" := (bind c (fun x => k))
  (at level 100, c at next level, right associativity) : action_scope.
Notation "c ;;; k" := (bind c (fun _ => k))
  (at level 100, right associativity) : action_scope.
Local Open Scope action_scope.

(** [for (const x of l) body x] *)
Fixpoint for_of {A : Type} (l : list A) (body : A -> M unit) : M unit :=
  match l with
  | [] => ret tt
  | x :: rest => body x ;;; for_of rest body
  end.

(** [for (const x of l) { s = f s x }] *)
Fixpoint foldM {A S : Type} (f : S -> A -> M S) (l : list A) (s : S) : M S :=
  match l with
  | [] => ret s
  | x :: rest => s' <- f s x ;; foldM f rest s'
  end.

(** [v != null] and [v == null] for a value read from the response:
    [undefined] and [null] are both loosely equal to [null]. *)
Definition loose_ne_null (v : option (option jsstring)) : bool :=
  match v with
  | Some (Some _) => true
  | _ => false
  end.

Definition loose_eq_null (v : option (option jsstring)) : bool :=
  match v with
  | Some (Some _) => false
  | _ => true
  end.

(** [a.length !== 0 ? a : undefined] *)
Definition nonempty_or_undefined {A : Type} (a : list A) : option (list A) :=
  if negb (Nat.eqb (length a) 0) then Some a else None.

Section Action.

Variable w : World.

(** *** getRepoFiles.ts *)

(** [`_${base58Encode(file)}`] *)
Definition alias (file : jsstring) : jsstring :=
  js "_" ++ Base58.base58Encode (Base58.InString file).

(** The dictionary path to alias filled by the first two loops. *)
Definition input_files (files : list jsstring) : JsObject.t jsstring :=
  fold_left (fun o file => JsObject.assign o file (alias file)) files JsObject.empty.

(** [`${o[file]}:file(path:"${file}"){type}`] *)
Definition query_entry (o : JsObject.t jsstring) (file : jsstring) : jsstring :=
  tpl (JsObject.get o file) ++ js ":file(path:" ++ [QUOTE] ++ file
    ++ [QUOTE] ++ js "){type}".

Definition query_data (owner repo : option jsstring) (branch query : jsstring)
  : jsstring :=
  js "{" ++ [LF]
    ++ js "    repository(owner:" ++ [QUOTE] ++ tpl owner ++ [QUOTE]
    ++ js ", name:" ++ [QUOTE] ++ tpl repo ++ [QUOTE] ++ js ") {" ++ [LF]
    ++ js "      ref(qualifiedName: " ++ [QUOTE] ++ js "refs/heads/" ++ branch
    ++ [QUOTE] ++ js ") {" ++ [LF]
    ++ js "        target{... on Commit{" ++ [LF]
    ++ js "          " ++ query ++ [LF]
    ++ js "        }}" ++ [LF]
    ++ js "      }" ++ [LF]
    ++ js "    }" ++ [LF]
    ++ js "  }".

(** [request.data.repository.ref.target[o[file]]] *)
Definition file_result (request : RepoFilesQueryResponseType)
    (o : JsObject.t jsstring) (file : jsstring) : option (option jsstring) :=
  target request !! tpl (JsObject.get o file).

(** The first classification loop: the state is
    [(createFiles, modifyFiles)]. *)
Definition classify_create_modify (request : RepoFilesQueryResponseType)
    (o : JsObject.t jsstring) : list jsstring * list jsstring :=
  fold_left
    (fun '(createFiles, modifyFiles) file =>
       let fileResult := file_result request o file in
       let modifyFiles :=
         if loose_ne_null fileResult then modifyFiles ++ [file] else modifyFiles in
       let createFiles :=
         if loose_eq_null fileResult then createFiles ++ [file] else createFiles in
       (createFiles, modifyFiles))
    (JsObject.keys o) ([], []).

(** The second classification loop, with its log line. *)
Definition classify_delete (request : RepoFilesQueryResponseType)
    (o : JsObject.t jsstring) : M (list jsstring) :=
  foldM
    (fun deleteFiles file =>
       let fileResult := file_result request o file in
       let deleteFiles :=
         if loose_ne_null fileResult then deleteFiles ++ [file] else deleteFiles in
       (if loose_eq_null fileResult
        then emit (EvInfo (js "input 'delete_file' not found in remote: "
                             ++ file ++ js "; ignoring"))
        else ret tt) ;;;
       ret deleteFiles)
    (JsObject.keys o) [].

Definition getRepoFiles (token : jsstring) (owner repo : option jsstring)
    (branch : jsstring) (inputCreateModifyFiles inputDeleteFiles : list jsstring)
  : M RepoFilesActionType :=
  let inputFilesCreateModify := input_files inputCreateModifyFiles in
  let inputFilesDelete := input_files inputDeleteFiles in
  let queries :=
    map (query_entry inputFilesCreateModify) (JsObject.keys inputFilesCreateModify)
      ++ map (query_entry inputFilesDelete) (JsObject.keys inputFilesDelete) in
  let query := join (js ",") queries in
  let data := query_data owner repo branch query in
  emit (EvQuery token data) ;;;
  request <- lift (requestQuery w token data) ;;
  let '(createFiles, modifyFiles) :=
    classify_create_modify request inputFilesCreateModify in
  deleteFiles <-
    (if negb (Nat.eqb (length inputDeleteFiles) 0)
     then classify_delete request inputFilesDelete
     else ret []) ;;
  ret {| createFiles := nonempty_or_undefined createFiles;
         modifyFiles := nonempty_or_undefined modifyFiles;
         deleteFiles := nonempty_or_undefined deleteFiles |}.

(** *** createCommit.ts *)

Definition mutation_query : jsstring :=
  js "mutation ($input: CreateCommitOnBranchInput!) {" ++ [LF]
    ++ js "    createCommitOnBranch(input: $input) {" ++ [LF]
    ++ js "      commit {" ++ [LF]
    ++ js "        url" ++ [LF]
    ++ js "      }" ++ [LF]
    ++ js "    }" ++ [LF]
    ++ js "  }".

(** [(fileChanges.additions as CommitFileChangeType[]).push(c)] *)
Definition push_addition (fc : CommitFileChangesType) (c : CommitFileChangeType)
  : M CommitFileChangesType :=
  match additions fc with
  | Some a => ret {| additions := Some (a ++ [c]); deletions := deletions fc |}
  | None => throwError (js "Cannot read properties of undefined (reading 'push')")
  end.

Definition push_deletion (fc : CommitFileChangesType) (c : CommitFileChangeType)
  : M CommitFileChangesType :=
  match deletions fc with
  | Some d => ret {| additions := additions fc; deletions := Some (d ++ [c]) |}
  | None => throwError (js "Cannot read properties of undefined (reading 'push')")
  end.

(** One of the two loops that fill [additions]. *)
Definition add_files (files : option (list jsstring)) (fc : CommitFileChangesType)
  : M CommitFileChangesType :=
  match files with
  | Some files =>
      foldM (fun fc file =>
               c <- lift (readFileSync_base64 w file) ;;
               push_addition fc {| path := file; contents := Some c |})
            files fc
  | None => ret fc
  end.

(** The construction of [fileChanges]. *)
Definition build_fileChanges (fileActions : RepoFilesActionType)
  : M CommitFileChangesType :=
  let fileChanges := {| additions := None; deletions := None |} in
  let fileChanges :=
    if bool_decide (createFiles fileActions <> None)
       || bool_decide (modifyFiles fileActions <> None)
    then {| additions := Some []; deletions := deletions fileChanges |}
    else fileChanges in
  fileChanges <- add_files (createFiles fileActions) fileChanges ;;
  fileChanges <- add_files (modifyFiles fileActions) fileChanges ;;
  match deleteFiles fileActions with
  | Some files =>
      let fileChanges :=
        {| additions := additions fileChanges; deletions := Some [] |} in
      foldM (fun fc file => push_deletion fc {| path := file; contents := None |})
            files fileChanges
  | None => ret fileChanges
  end.

(** The error branch at the end of [createCommit]. *)
Definition check_errors (execRequest : CreateCommitResponseType)
  : M CreateCommitResponseType :=
  match errors execRequest with
  | Some errs =>
      let messages := fold_left (fun ms e => ms ++ [error_message e]) errs [] in
      throwError (js "error(s) processing the commit: "
                    ++ JSON_stringify_strings messages)
  | None => ret execRequest
  end.

Definition createCommit (token : jsstring) (owner repo : option jsstring)
    (branch : jsstring) (message : CommitMessageType)
    (fileActions : RepoFilesActionType) : M CreateCommitResponseType :=
  let query := mutation_query in
  fileChanges <- build_fileChanges fileActions ;;
  let input :=
    {| branchName := branch;
       repositoryNameWithOwner := tpl owner ++ js "/" ++ tpl repo;
       message := {| default_ := None;
                     headline := headline message;
                     body := body message |};
       fileChanges := fileChanges;
       expectedHeadOid := GITHUB_SHA w |} in
  emit (EvMutation token query input) ;;;
  execRequest <- lift (requestMutation w token query input) ;;
  check_errors execRequest.

End Action.

(** *** input.ts *)

(** The loop
    [for (const line of lines) { if (line.trim() === '') { lines.shift(); continue; } break; }]:
    the array iterator reads [lines[i]] with an index [i] that grows by one
    each round, while [shift] removes the first element of the same
    array. *)
Fixpoint consume_blank (lines : list jsstring) (i : nat) : list jsstring :=
  match lines with
  | [] => []
  | _ :: shifted =>
      match lines !! i with
      | Some line => if str_eqb (trim line) [] then consume_blank shifted (S i) else lines
      | None => lines
      end
  end.

(** What both branches of [getInputCommitMessage] do once [lines] is
    split. *)
Definition message_of_lines (lines : list jsstring) : M CommitMessageType :=
  let lines := consume_blank lines 0 in
  match lines with
  | [] => throwError (js "commit message is empty")
  | first :: lines =>
      let out_headline := trim first in
      let body := trim (join [LF] lines) in
      ret {| default_ := None;
             headline := out_headline;
             body := if negb (str_eqb body []) then Some body else None |}
  end.

Section Input.

Variable w : World.

Definition getInputBranch : M jsstring :=
  let input := getInput w (js "branch") in
  let env := GITHUB_REF_NAME w in
  if str_eqb input [] && str_eqb env [] then
    throwError (js "branch could not be determined; input 'branch' not specified "
                  ++ js "and 'env.GITHUB_REF_NAME' was empty")
  else if negb (str_eqb input []) then ret input
  else ret env.

Definition getInputCommitMessage : M CommitMessageType :=
  let inputMessage := getInput w (js "message") in
  let inputMessageFile := getInput w (js "message_file") in
  if negb (str_eqb inputMessage []) && negb (str_eqb inputMessageFile []) then
    throwError (js "both 'message' and 'message_file' cannot be specified")
  else if str_eqb inputMessage [] && str_eqb inputMessageFile [] then
    ret {| default_ := Some true; headline := js "committed files"; body := None |}
  else if negb (str_eqb inputMessage []) then
    message_of_lines (split_on LF (trim inputMessage))
  else if negb (existsSync w inputMessageFile) then
    throwError (js "input 'message_file' '" ++ inputMessageFile
                  ++ js "' does not exist")
  else
    text <- lift (readFileSync_utf8 w inputMessageFile) ;;
    message_of_lines (split_lines text).

(** The loop shared by [getInputDeleteFiles] and [getInputFiles]; [what]
    is the input's name in the error message. *)
Definition expand_lines (what : jsstring) (lines : list jsstring)
  : M (list jsstring) :=
  foldM
    (fun out line =>
       checkGlob <- lift (globSync w line) ;;
       if Nat.eqb (length checkGlob) 0 then
         throwError (js "no input '" ++ what ++ js "' found: " ++ line)
       else if Nat.eqb (length checkGlob) 1 then ret (out ++ [line])
       else ret (out ++ checkGlob))
    lines [].

Definition nonblank (line : jsstring) : bool := negb (str_eqb (trim line) []).

Definition getInputDeleteFiles : M (list jsstring) :=
  let input := getInput w (js "delete_files") in
  if str_eqb input [] then ret []
  else
    let inputLines := List.filter nonblank (split_on LF input) in
    out <- expand_lines (js "delete_file") inputLines ;;
    if Nat.eqb (length out) 0 then
      throwError (js "no 'delete_files' could be parsed from input: '"
                    ++ JSON_stringify_string input ++ js "'")
    else ret out.

(** [getInput(name, { required: true })] of the actions toolkit. *)
Definition getInput_required (name : jsstring) : M jsstring :=
  let val := getInput w name in
  if str_eqb val [] then
    throwError (js "Input required and not supplied: " ++ name)
  else ret val.

Definition getInputFiles : M (list jsstring) :=
  raw <- getInput_required (js "files") ;;
  let input := List.filter nonblank (split_on LF raw) in
  out <- expand_lines (js "file") input ;;
  if Nat.eqb (length out) 0 then
    throwError (js "no 'files' could be parsed from input: '"
                  ++ JSON_stringify_strings input ++ js "'")
  else ret out.

(** [const [owner, repo] = s.split('/')] followed by the check and the
    returned object; [err] is the message of the branch. *)
Definition parse_repository (s : jsstring) (err : jsstring) : M RepositoryType :=
  let segments := split_on SLASH s in
  let owner := segments !! 0%nat in
  let repo := segments !! 1%nat in
  if bool_decide (owner = Some []) || bool_decide (repo = Some []) then
    throwError err
  else ret {| owner := owner; repository := repo |}.

Definition getInputRepository : M RepositoryType :=
  let input := getInput w (js "repository") in
  let env := GITHUB_REPOSITORY w in
  if str_eqb input [] && str_eqb env [] then
    throwError (js "repository could not be determined; input 'repository' not specified "
                  ++ js "and 'env.GITHUB_REPOSITORY' was empty")
  else if negb (str_eqb input []) then
    parse_repository input
      (js "input 'repository' could not be parsed: '" ++ input ++ js "'; "
         ++ js "must be formatted as 'OWNER/REPOSITORY'")
  else
    parse_repository env
      (js "GITHUB_REPOSITORY environment variable could not be interpreted").

Definition getInputToken : M jsstring :=
  let input := getInput w (js "token") in
  let env := GITHUB_TOKEN w in
  if str_eqb input [] && str_eqb env [] then
    throwError (js "no token available; must set input 'token' or 'env.GITHUB_TOKEN'")
  else if negb (str_eqb input []) then
    emit (EvSetSecret input) ;;; ret input
  else
    emit (EvSetSecret env) ;;; ret env.

(** *** index.ts *)

Definition checkFilesExist (files : list jsstring) : M unit :=
  for_of files
    (fun file =>
       if negb (existsSync w file) then
         throwError (js "create/modify file '" ++ file ++ js "' does not exist")
       else ret tt).

Definition generateDefaultCommitMessageBody (files : RepoFilesActionType)
  : jsstring :=
  let out := [] in
  let out :=
    match createFiles files with
    | Some fs => fold_left (fun out file => out ++ [js "created  '" ++ file ++ js "'"]) fs out
    | None => out
    end in
  let out :=
    match modifyFiles files with
    | Some fs => fold_left (fun out file => out ++ [js "modified '" ++ file ++ js "'"]) fs out
    | None => out
    end in
  let out :=
    match deleteFiles files with
    | Some fs => fold_left (fun out file => out ++ [js "deleted  '" ++ file ++ js "'"]) fs out
    | None => out
    end in
  join [LF] out.

(** The [try] block of [main]. *)
Definition main_body : M unit :=
  branch <- getInputBranch ;;
  deleteFiles <- getInputDeleteFiles ;;
  files <- getInputFiles ;;
  message <- getInputCommitMessage ;;
  repository' <- getInputRepository ;;
  token <- getInputToken ;;
  checkFilesExist files ;;;
  repoFilesAction <-
    getRepoFiles w token (owner repository') (repository repository')
      branch files deleteFiles ;;
  let message :=
    if bool_decide (default_ message = Some true) then
      {| default_ := default_ message;
         headline := headline message;
         body := Some (generateDefaultCommitMessageBody repoFilesAction) |}
    else message in
  resp <-
    createCommit w token (owner repository') (repository repository')
      branch message repoFilesAction ;;
  match data resp with
  | Some url => emit (EvInfo (js "commit success: " ++ url))
  | None => ret tt
  end.

(** [catch (e) { if (e instanceof Error) setFailed(e.message); }] *)
Definition main_handler (e : thrown) : M unit :=
  match e with
  | ThrowError message => emit (EvSetFailed message)
  | ThrowOther _ => ret tt
  end.

Definition main : M unit := try_catch main_body main_handler.

End Input.

(** ** A decoder for base58 *)

Module Base58Decode.

Import Base58.

(** The digit a character of the alphabet stands for. *)
Definition digit_of (c : N) : option Z :=
  (fun r => Z.of_nat (fst r)) <$> list_find (fun a => a = c) B58ALPHANUM.

Fixpoint strip_ones (s : jsstring) : nat * jsstring :=
  match s with
  | c :: r =>
      if (c =? 49)%N then let '(k, rest) := strip_ones r in (S k, rest)
      else (O, s)
  | [] => (O, [])
  end.

Definition parse58 (s : jsstring) : option Z :=
  fold_left
    (fun acc c =>
       match acc, digit_of c with
       | Some a, Some d => Some (a * 58 + d)
       | _, _ => None
       end)
    s (Some 0).

Fixpoint bytes_loop (fuel : nat) (x : Z) (acc : list byte) : list byte :=
  match fuel with
  | O => acc
  | S fuel' =>
      if x >? 0 then bytes_loop fuel' (x / 256) (to_uint8 (Z.to_N (x mod 256)) :: acc)
      else acc
  end.

(** Modelled from the spec: the decoder of the round trip (the "reversal,
    for test purposes"), of which the repository ships the encoder only.
    It is the usual inverse: every leading [1] is a zero byte, the other
    characters are the digits of a number written in base 58, whose
    big-endian bytes follow. *)
Definition base58Decode (s : jsstring) : option (list byte) :=
  let '(k, rest) := strip_ones s in
  match parse58 rest with
  | Some x => Some (repeat x00 k ++ bytes_loop (encode_fuel x) x [])
  | None => None
  end.

(** The number a byte sequence denotes, most significant byte first. *)
Definition be256 (bs : list byte) : Z :=
  fold_left (fun acc b => acc * 256 + Z.of_N (Byte.to_N b)) bs 0.

(** The number of zero bytes in front. *)
Fixpoint leading_zeros (bs : list byte) : nat :=
  match bs with
  | b :: rest => if (Byte.to_N b =? 0)%N then S (leading_zeros rest) else O
  | [] => O
  end.

(** The value of base-58 digits, least significant first. *)
Definition value58 (ds : list Z) : Z := foldr (fun d acc => d + 58 * acc) 0 ds.

Definition canonical (bs : list byte) : Prop := head bs <> Some x00.

End Base58Decode.

(** ** Reading a classification *)

(** The paths a dictionary built from [files] tracks. *)
Definition tracked (files : list jsstring) (p : jsstring) : Prop :=
  p ∈ files /\ p <> js "__proto__".

(** The content of a bucket, absent or not. *)
Definition bucket (b : option (list jsstring)) : list jsstring := default [] b.

(** ** Reading a run *)

(** The mutation input [createCommit] sends once [fileChanges] is built. *)
Definition commit_input (w : World) (owner repo : option jsstring)
    (branch : jsstring) (message : CommitMessageType)
    (fc : CommitFileChangesType) : CreateCommitInputType :=
  {| branchName := branch;
     repositoryNameWithOwner := tpl owner ++ js "/" ++ tpl repo;
     message := {| default_ := None;
                   headline := headline message;
                   body := body message |};
     fileChanges := fc;
     expectedHeadOid := GITHUB_SHA w |}.

(** The events a run may emit before its last step: no failure report,
    and no log line but the notice of a delete candidate that the remote
    branch does not have. *)
Definition quiet (e : event) : Prop :=
  match e with
  | EvSetFailed _ => False
  | EvInfo msg =>
      exists file,
        msg = js "input 'delete_file' not found in remote: " ++ file ++ js "; ignoring"
  | _ => True
  end.

(** The two requests of the transport. *)
Definition is_request (e : event) : Prop :=
  match e with
  | EvQuery _ _ | EvMutation _ _ _ => True
  | _ => False
  end.

(** The lines at the positions 0, 2, 4, ... of a list. *)
Fixpoint evens {A : Type} (l : list A) : list A :=
  match l with
  | [] => []
  | x :: r => x :: match r with
                   | [] => []
                   | _ :: r' => evens r'
                   end
  end.

(** [line.trim() === ''] *)
Definition blank (line : jsstring) : bool := str_eqb (trim line) [].

(** The number of blank lines in front of a list of lines. *)
Fixpoint blank_prefix (l : list jsstring) : nat :=
  match l with
  | line :: r => if blank line then S (blank_prefix r) else O
  | [] => O
  end.

(** A letter or a digit of ASCII. *)
Definition is_alnum (c : N) : bool :=
  ((48 <=? c) && (c <=? 57) || (65 <=? c) && (c <=? 90)
   || (97 <=? c) && (c <=? 122))%N.

(** The log line about a delete candidate that the remote does not have. *)
Definition notice (file : jsstring) : event :=
  EvInfo (js "input 'delete_file' not found in remote: " ++ file ++ js "; ignoring").

(** What a line of [files] or [delete_files] adds to the list, given the
    answer of the file matcher. *)
Definition contribution (w : World) (line : jsstring) : list jsstring :=
  match globSync w line with
  | Ok checkGlob => if Nat.eqb (length checkGlob) 1 then [line] else checkGlob
  | Throw _ => []
  end.

(** The string [getInputRepository] parses: the input, or the environment
    when the input is empty. *)
Definition chosen_repository (w : World) : jsstring :=
  if str_eqb (getInput w (js "repository")) [] then GITHUB_REPOSITORY w
  else getInput w (js "repository").

(** The query text [getRepoFiles] sends for the two candidate lists. *)
Definition repo_files_query (owner repo : option jsstring) (branch : jsstring)
    (files deletes : list jsstring) : jsstring :=
  query_data owner repo branch
    (join (js ",")
       (map (query_entry (input_files files)) (JsObject.keys (input_files files))
          ++ map (query_entry (input_files deletes))
               (JsObject.keys (input_files deletes)))).

(** The entries of [additions] for a list of paths, in order, or the
    failure of the first read that fails. *)
Fixpoint read_all (w : World) (files : list jsstring)
  : result (list CommitFileChangeType) :=
  match files with
  | [] => Ok []
  | f :: rest =>
      match readFileSync_base64 w f with
      | Ok c =>
          match read_all w rest with
          | Ok l => Ok ({| path := f; contents := Some c |} :: l)
          | Throw e => Throw e
          end
      | Throw e => Throw e
      end
  end.

(** An entry of [additions] for the path [f]: the path and the content
    read from it. *)
Definition addition_of (w : World) (f : jsstring) (c : CommitFileChangeType) : Prop :=
  path c = f /\ exists text, readFileSync_base64 w f = Ok text /\ contents c = Some text.

(** What [main] does once the six resolvers returned and the files were
    checked: the rest of the [try] block. *)
Definition after_gate (w : World) (branch : jsstring) (deleteFiles files : list jsstring)
    (message : CommitMessageType) (repository' : RepositoryType) (token : jsstring)
  : M unit :=
  repoFilesAction <-
    getRepoFiles w token (owner repository') (repository repository')
      branch files deleteFiles ;;
  let message :=
    if bool_decide (default_ message = Some true) then
      {| default_ := default_ message;
         headline := headline message;
         body := Some (generateDefaultCommitMessageBody repoFilesAction) |}
    else message in
  resp <-
    createCommit w token (owner repository') (repository repository')
      branch message repoFilesAction ;;
  match data resp with
  | Some url => emit (EvInfo (js "commit success: " ++ url))
  | None => ret tt
  end.

(** The resolved configuration of a run. *)
Record Resolved : Type := {
  r_branch : jsstring;
  r_deletes : list jsstring;
  r_files : list jsstring;
  r_message : CommitMessageType;
  r_repository : RepositoryType;
  r_token : jsstring
}.

(** The six resolvers returned the values of [c]. *)
Definition resolves (w : World) (c : Resolved) : Prop :=
  snd (getInputBranch w) = Ok (r_branch c)
  /\ snd (getInputDeleteFiles w) = Ok (r_deletes c)
  /\ snd (getInputFiles w) = Ok (r_files c)
  /\ snd (getInputCommitMessage w) = Ok (r_message c)
  /\ snd (getInputRepository w) = Ok (r_repository c)
  /\ snd (getInputToken w) = Ok (r_token c).

(** The requests among the events of a trace, in their order. *)
Definition requests (tr : list event) : list event :=
  List.filter (fun e => match e with
                        | EvQuery _ _ | EvMutation _ _ _ => true
                        | _ => false
                        end) tr.

(** The commit message [main] hands to [createCommit]: the resolved one,
    with the generated body when it is the default message. *)
Definition sent_message (message : CommitMessageType) (r : RepoFilesActionType)
  : CommitMessageType :=
  {| default_ := None;
     headline := headline message;
     body := if bool_decide (default_ message = Some true)
             then Some (generateDefaultCommitMessageBody r)
             else body message |}.

(** ** Sample platforms *)

Module Samples.

(** The action inputs, as name and value pairs. *)
Definition inputs_of (l : list (jsstring * jsstring)) (name : jsstring) : jsstring :=
  default [] (JsObject.get l name).

(** A platform with the given inputs, the local files [present] (each
    holding the text [content]) and the two answers of the transport. *)
Definition sample_world (inputs : list (jsstring * jsstring))
    (present : list jsstring) (content : jsstring)
    (q : result RepoFilesQueryResponseType)
    (m : result CreateCommitResponseType) : World :=
  {| getInput := inputs_of inputs;
     GITHUB_REF_NAME := js "main";
     GITHUB_REPOSITORY := js "octocat/Hello-World";
     GITHUB_SHA := js "7fd1a60b01f91b314f59955a4e4d4e80d8edf11d";
     GITHUB_TOKEN := js "ghs_sample";
     existsSync := fun p => bool_decide (p ∈ present);
     readFileSync_utf8 := fun p =>
       if bool_decide (p ∈ present) then Ok content
       else Throw (ThrowError (js "ENOENT: no such file or directory, open '"
                                 ++ p ++ js "'"));
     readFileSync_base64 := fun p =>
       if bool_decide (p ∈ present) then Ok (js "Zm9v")
       else Throw (ThrowError (js "ENOENT: no such file or directory, open '"
                                 ++ p ++ js "'"));
     globSync := fun p => Ok (if bool_decide (p ∈ present) then [p] else []);
     requestQuery := fun _ _ => q;
     requestMutation := fun _ _ _ => m |}.

Definition no_answer {A : Type} : result A :=
  Throw (ThrowError (js "connect ECONNREFUSED")).

Definition commit_ok : result CreateCommitResponseType :=
  Ok {| data := Some (js "https://github.test/octocat/Hello-World/commit/1");
        errors := None |}.

(** The remote branch holds exactly the paths [remote]. *)
Definition remote_has (remote : list jsstring) : result RepoFilesQueryResponseType :=
  Ok {| target := list_to_map (map (fun p => (alias p, Some (js "blob"))) remote) |}.

Definition error_of (msg : jsstring) : CommitErrorType :=
  {| error_type := js "NOT_FOUND"; error_path := [js "createCommitOnBranch"];
     error_locations := [(2, 5)]; error_message := msg |}.

(** The platform [w] with another file matcher. *)
Definition with_glob (g : jsstring -> result (list jsstring)) (w : World) : World :=
  {| getInput := getInput w;
     GITHUB_REF_NAME := GITHUB_REF_NAME w;
     GITHUB_REPOSITORY := GITHUB_REPOSITORY w;
     GITHUB_SHA := GITHUB_SHA w;
     GITHUB_TOKEN := GITHUB_TOKEN w;
     existsSync := existsSync w;
     readFileSync_utf8 := readFileSync_utf8 w;
     readFileSync_base64 := readFileSync_base64 w;
     globSync := g;
     requestQuery := requestQuery w;
     requestMutation := requestMutation w |}.

(** The capital L with stroke, U+0141, in front of [.txt]. *)
Definition path_L_stroke : jsstring := 321%N :: js ".txt".

End Samples.

(** * Verification *)

(** Splits on the condition of a conditional of the goal. *)
Ltac case_if :=
  match goal with
  | |- context [if ?b then _ else _] => destruct b
  end.

(** ** Base58: the encoder computes the positional notation *)

Module Base58Facts.

Import Base58 Base58Decode.

Lemma byte_range (b : byte) : 0 <= Z.of_N (Byte.to_N b) < 256.
Proof. pose proof (Byte.to_N_bounded b). lia. Qed.

Lemma to_uint8_to_N (b : byte) : to_uint8 (Byte.to_N b) = b.
Proof.
  unfold to_uint8. rewrite N.mod_small by (pose proof (Byte.to_N_bounded b); lia).
  now rewrite Byte.of_to_N.
Qed.

Lemma hex2_value (b : byte) (acc : Z) :
  fold_left (fun a c => a * 16 + hexval c) (hex2 b) acc
  = acc * 256 + Z.of_N (Byte.to_N b).
Proof.
  assert (H : exists d1 d2, hex2 b = [d1; d2]
              /\ hexval d1 * 16 + hexval d2 = Z.of_N (Byte.to_N b)).
  { destruct b; do 2 eexists; split; vm_compute; reflexivity. }
  destruct H as (d1 & d2 & -> & <-). simpl. lia.
Qed.

Lemma hex_of_bytes_from (bs : list byte) (h : jsstring) :
  fold_left (fun hex c => hex ++ hex2 c) bs h = h ++ hex_of_bytes bs.
Proof.
  unfold hex_of_bytes. revert h.
  induction bs as [|b bs IH] using rev_ind; intros h; simpl.
  - now rewrite app_nil_r.
  - rewrite !fold_left_app. simpl. rewrite IH. now rewrite app_assoc.
Qed.

Lemma bigint_of_hex_bytes (bs : list byte) :
  bigint_of_hex (hex_of_bytes bs) = be256 bs.
Proof.
  unfold bigint_of_hex, be256.
  induction bs as [|b bs IH] using rev_ind; [reflexivity|].
  unfold hex_of_bytes in *. rewrite !fold_left_app. simpl.
  rewrite fold_left_app, IH. apply hex2_value.
Qed.

Lemma be256_snoc (bs : list byte) (b : byte) :
  be256 (bs ++ [b]) = be256 bs * 256 + Z.of_N (Byte.to_N b).
Proof. unfold be256. now rewrite fold_left_app. Qed.

Lemma be256_nonneg (bs : list byte) : 0 <= be256 bs.
Proof.
  induction bs as [|b bs IH] using rev_ind; [unfold be256; simpl; lia|].
  rewrite be256_snoc. pose proof (byte_range b). lia.
Qed.

Lemma byte_zero (b : byte) : Byte.to_N b = 0%N -> b = x00.
Proof.
  intros H. rewrite <- (to_uint8_to_N b), H. reflexivity.
Qed.

Lemma canonical_pos (bs : list byte) :
  canonical bs -> bs <> [] -> 0 < be256 bs.
Proof.
  induction bs as [|b bs IH] using rev_ind; [congruence|].
  intros Hc _. rewrite be256_snoc. pose proof (byte_range b).
  destruct bs as [|b0 bs].
  - unfold be256; simpl. unfold canonical in Hc; simpl in Hc.
    assert (Byte.to_N b <> 0%N) by (intros E; apply Hc; f_equal; now apply byte_zero).
    lia.
  - assert (0 < be256 (b0 :: bs)) by (apply IH; [exact Hc | discriminate]). lia.
Qed.

Lemma canonical_zero (bs : list byte) : canonical bs -> be256 bs = 0 -> bs = [].
Proof.
  intros Hc H0. destruct bs as [|b bs]; [reflexivity|].
  assert (0 < be256 (b :: bs)) by (apply canonical_pos; [exact Hc | discriminate]). lia.
Qed.

Lemma canonical_prefix (bs : list byte) (b : byte) :
  canonical (bs ++ [b]) -> canonical bs.
Proof. unfold canonical. destruct bs; simpl; [discriminate | auto]. Qed.

(** The decoder's loop rebuilds a canonical sequence from its value. *)
Lemma bytes_loop_be256 (fuel : nat) :
  forall (bs acc : list byte),
    canonical bs -> be256 bs < 2 ^ Z.of_nat fuel ->
    bytes_loop fuel (be256 bs) acc = bs ++ acc.
Proof.
  induction fuel as [|fuel IH]; intros bs acc Hc Hlt.
  - simpl in *. rewrite (canonical_zero bs Hc); [reflexivity|].
    pose proof (be256_nonneg bs). lia.
  - cbn [bytes_loop]. destruct (be256 bs >? 0) eqn:Hpos.
    + destruct bs as [|b bs _] using rev_ind; [discriminate|].
      rewrite be256_snoc in *. pose proof (byte_range b).
      replace ((be256 bs * 256 + Z.of_N (Byte.to_N b)) / 256) with (be256 bs)
        by (apply Z.div_unique with (r := Z.of_N (Byte.to_N b)); lia).
      replace ((be256 bs * 256 + Z.of_N (Byte.to_N b)) mod 256)
        with (Z.of_N (Byte.to_N b))
        by (apply Z.mod_unique with (q := be256 bs); lia).
      rewrite N2Z.id, to_uint8_to_N, IH.
      * now rewrite <- app_assoc.
      * eapply canonical_prefix; eassumption.
      * rewrite Nat2Z.inj_succ, Z.pow_succ_r in Hlt by lia. lia.
    + rewrite (canonical_zero bs Hc); [reflexivity|].
      pose proof (be256_nonneg bs). lia.
Qed.

Lemma encode_fuel_enough (x : Z) : 0 <= x -> x < 2 ^ Z.of_nat (encode_fuel x).
Proof.
  intros Hx. unfold encode_fuel. rewrite Nat2Z.inj_succ.
  rewrite Z2Nat.id by apply Z.log2_nonneg.
  destruct (Z.eq_dec x 0) as [->|Hne]; [reflexivity|].
  apply Z.log2_spec. lia.
Qed.

(** Every digit has its character, and the character reads back. *)
Lemma alphabet_digit (d : Z) :
  0 <= d < 58 ->
  exists c, alphabet_at d = [c] /\ digit_of c = Some d /\ (c = 49%N <-> d = 0).
Proof.
  intros Hd. replace d with (Z.of_nat (Z.to_nat d)) by lia.
  assert (Hn : (Z.to_nat d < 58)%nat) by lia.
  generalize dependent (Z.to_nat d). clear. intros n Hn.
  do 58 (destruct n as [|n];
         [eexists; split; [vm_compute; reflexivity
                          | split; [vm_compute; reflexivity
                                   | split; intros E; vm_compute in E |- *;
                                     first [reflexivity | discriminate E]]]
         |]).
  lia.
Qed.

(** The [while] loop pushes the digits of [x], least significant first,
    and leaves on [x = 0] before the fuel is used up. *)
Lemma digits_loop_spec (fuel : nat) :
  forall (x : Z) (output : list jsstring),
    0 <= x < 2 ^ Z.of_nat fuel ->
    exists ds,
      digits_loop fuel x output = output ++ map alphabet_at ds
      /\ Forall (fun d => 0 <= d < 58) ds
      /\ value58 ds = x
      /\ last ds <> Some 0.
Proof.
  induction fuel as [|fuel IH]; intros x output Hx.
  - exists []. simpl in *. rewrite app_nil_r. repeat split; auto; lia.
  - cbn [digits_loop]. destruct (x >? 0) eqn:Hpos.
    + destruct (IH (x / 58) (output ++ [alphabet_at (x mod 58)])) as (ds & E & Hr & Hv & Hl).
      { rewrite Nat2Z.inj_succ, Z.pow_succ_r in Hx by lia.
        split; [apply Z.div_pos; lia|].
        apply Z.div_lt_upper_bound; lia. }
      exists (x mod 58 :: ds). rewrite E, <- app_assoc. repeat split.
      * constructor; [apply Z.mod_pos_bound; lia | exact Hr].
      * cbn [value58 foldr]. fold (value58 ds). rewrite Hv.
        symmetry. rewrite Z.add_comm. apply Z.div_mod. lia.
      * destruct ds as [|d ds]; [|exact Hl].
        simpl in *. intros [= E0]. rewrite <- Hv in *.
        assert (x = 58 * (x / 58) + x mod 58) by (apply Z.div_mod; lia). lia.
    + exists []. simpl. rewrite app_nil_r. repeat split; auto; lia.
Qed.

Lemma value58_cons (d : Z) (ds : list Z) : value58 (d :: ds) = d + 58 * value58 ds.
Proof. reflexivity. Qed.

Lemma value58_nonneg (ds : list Z) :
  Forall (fun d => 0 <= d < 58) ds -> 0 <= value58 ds.
Proof.
  induction 1 as [|d ds Hd _ IH]; [reflexivity|]. rewrite value58_cons. lia.
Qed.

Lemma last_tail (d : Z) (ds : list Z) :
  last (d :: ds) <> Some 0 -> last ds <> Some 0.
Proof. destruct ds; [discriminate | auto]. Qed.

Lemma value58_zero (ds : list Z) :
  Forall (fun d => 0 <= d < 58) ds -> last ds <> Some 0 -> value58 ds = 0 ->
  ds = [].
Proof.
  induction 1 as [|d ds Hd Hr IH]; [reflexivity|]. intros Hl Hv.
  rewrite value58_cons in Hv. pose proof (value58_nonneg ds Hr).
  assert (ds = []) as -> by (apply IH; [eapply last_tail; eassumption | lia]).
  exfalso. apply Hl. simpl. f_equal. cbn in Hv. lia.
Qed.

(** A number has one canonical list of digits. *)
Lemma value58_inj (ds : list Z) :
  forall ds',
    Forall (fun d => 0 <= d < 58) ds -> Forall (fun d => 0 <= d < 58) ds' ->
    last ds <> Some 0 -> last ds' <> Some 0 ->
    value58 ds = value58 ds' -> ds = ds'.
Proof.
  induction ds as [|d ds IH]; intros ds' Hr Hr' Hl Hl' Hv.
  - symmetry. apply value58_zero; auto.
  - destruct ds' as [|d' ds'].
    + apply value58_zero; auto.
    + apply Forall_cons in Hr as [Hd Hr]. apply Forall_cons in Hr' as [Hd' Hr'].
      rewrite !value58_cons in Hv.
      assert (d = d' /\ value58 ds = value58 ds') as [-> Hv2] by lia.
      f_equal. apply IH; eauto using last_tail.
Qed.

Lemma digits_loop_fuel (x : Z) (fuel : nat) :
  0 <= x -> (encode_fuel x <= fuel)%nat ->
  digits_loop fuel x [] = digits_loop (encode_fuel x) x [].
Proof.
  intros Hx Hf.
  assert (Hsmall : 0 <= x < 2 ^ Z.of_nat (encode_fuel x))
    by (split; [exact Hx | now apply encode_fuel_enough]).
  assert (Hbig : 0 <= x < 2 ^ Z.of_nat fuel).
  { split; [exact Hx|]. eapply Z.lt_le_trans; [apply Hsmall|].
    apply Z.pow_le_mono_r; lia. }
  destruct (digits_loop_spec _ x [] Hsmall) as (ds & -> & Hr & Hv & Hl).
  destruct (digits_loop_spec _ x [] Hbig) as (ds' & -> & Hr' & Hv' & Hl').
  do 2 f_equal. apply value58_inj; auto. congruence.
Qed.

Lemma zeros_loop_spec (bs : list byte) :
  forall output,
    zeros_loop bs output = output ++ repeat (alphabet_at 0) (leading_zeros bs).
Proof.
  induction bs as [|b bs IH]; intros output; simpl.
  - now rewrite app_nil_r.
  - destruct (Byte.to_N b =? 0)%N; simpl.
    + rewrite IH, <- app_assoc. reflexivity.
    + now rewrite app_nil_r.
Qed.

Lemma join_nil (l : list jsstring) : join [] l = concat l.
Proof.
  induction l as [|p l IH]; [reflexivity|].
  cbn [join concat]. destruct l; [simpl; now rewrite app_nil_r|].
  rewrite IH. reflexivity.
Qed.

Lemma concat_repeat_one (c : N) (k : nat) : concat (repeat [c] k) = repeat c k.
Proof. induction k; simpl; congruence. Qed.

(** The shape of the encoder's output: one [1] for each leading zero
    byte, then the digits of the number, most significant first. *)
Lemma base58Encode_shape (bs : list byte) :
  exists ds,
    Forall (fun d => 0 <= d < 58) ds
    /\ value58 ds = be256 bs
    /\ last ds <> Some 0
    /\ base58Encode (InBytes bs)
       = repeat 49%N (leading_zeros bs) ++ concat (map alphabet_at (rev ds)).
Proof.
  destruct bs as [|b bs].
  - exists []. repeat split; auto.
  - unfold base58Encode. cbn [input_length length Nat.eqb as_bytes].
    rewrite bigint_of_hex_bytes.
    pose proof (be256_nonneg (b :: bs)) as Hx.
    destruct (digits_loop_spec _ (be256 (b :: bs)) []
                (conj Hx (encode_fuel_enough _ Hx))) as (ds & -> & Hr & Hv & Hl).
    exists ds. repeat split; auto.
    rewrite zeros_loop_spec, join_nil, rev_app_distr, concat_app.
    rewrite rev_repeat. change (alphabet_at 0) with [49%N].
    rewrite concat_repeat_one, app_nil_l, map_rev. reflexivity.
Qed.

Lemma strip_ones_repeat (k : nat) (rest : jsstring) :
  head rest <> Some 49%N -> strip_ones (repeat 49%N k ++ rest) = (k, rest).
Proof.
  intros Hh. induction k as [|k IH]; simpl.
  - destruct rest as [|c r]; [reflexivity|]. simpl.
    destruct (N.eqb_spec c 49); [subst; now elim Hh | reflexivity].
  - now rewrite IH.
Qed.

Lemma head_digits (ds : list Z) :
  Forall (fun d => 0 <= d < 58) ds -> last ds <> Some 0 ->
  head (concat (map alphabet_at (rev ds))) <> Some 49%N.
Proof.
  intros Hr Hl. destruct ds as [|d ds _] using rev_ind; [discriminate|].
  rewrite rev_app_distr. simpl.
  apply Forall_app in Hr as [_ Hd]. apply Forall_cons in Hd as [Hd _].
  rewrite last_snoc in Hl.
  destruct (alphabet_digit d Hd) as (c & -> & _ & Hc). simpl.
  intros [= ->]. apply Hl. f_equal. now apply Hc.
Qed.

Lemma parse58_digits (l : list Z) :
  forall acc,
    Forall (fun d => 0 <= d < 58) l ->
    fold_left
      (fun acc c =>
         match acc, digit_of c with
         | Some a, Some d => Some (a * 58 + d)
         | _, _ => None
         end)
      (concat (map alphabet_at l)) (Some acc)
    = Some (fold_left (fun a d => a * 58 + d) l acc).
Proof.
  induction l as [|d l IH]; intros acc Hr; [reflexivity|].
  apply Forall_cons in Hr as [Hd Hr].
  destruct (alphabet_digit d Hd) as (c & Ec & Ed & _).
  cbn [map concat]. rewrite Ec. cbn [app fold_left]. rewrite Ed. now apply IH.
Qed.

Lemma value58_rev (ds : list Z) :
  fold_left (fun a d => a * 58 + d) (rev ds) 0 = value58 ds.
Proof.
  induction ds as [|d ds IH]; [reflexivity|].
  cbn [rev]. rewrite fold_left_app, IH, value58_cons. simpl. lia.
Qed.

Lemma split_leading_zeros (bs : list byte) :
  exists rest,
    bs = repeat x00 (leading_zeros bs) ++ rest
    /\ canonical rest /\ be256 rest = be256 bs.
Proof.
  induction bs as [|b bs (rest & E & Hc & Hv)].
  - exists []. repeat split. discriminate.
  - simpl. destruct (N.eqb_spec (Byte.to_N b) 0) as [Hz|Hnz].
    + exists rest. apply byte_zero in Hz. subst b. simpl.
      repeat split; [congruence | exact Hc |].
      rewrite Hv. unfold be256. reflexivity.
    + exists (b :: bs). repeat split. unfold canonical. simpl.
      intros [= ->]. now apply Hnz.
Qed.

(** Decoding what the encoder produced gives the bytes back. *)
Lemma decode_encode (bs : list byte) :
  base58Decode (base58Encode (InBytes bs)) = Some bs.
Proof.
  destruct (base58Encode_shape bs) as (ds & Hr & Hv & Hl & ->).
  unfold base58Decode. rewrite strip_ones_repeat by now apply head_digits.
  unfold parse58. rewrite parse58_digits by now apply Forall_rev.
  rewrite value58_rev, Hv.
  destruct (split_leading_zeros bs) as (rest & E & Hc & Hrest).
  rewrite <- Hrest, bytes_loop_be256; auto.
  - rewrite app_nil_r. congruence.
  - apply encode_fuel_enough, be256_nonneg.
Qed.

End Base58Facts.

(** ** The alias of a path *)

Module AliasFacts.

Import Base58 Base58Decode Base58Facts.

Lemma encode_injective (bs bs' : list byte) :
  base58Encode (InBytes bs) = base58Encode (InBytes bs') -> bs = bs'.
Proof.
  intros E. apply (f_equal base58Decode) in E.
  rewrite !decode_encode in E. congruence.
Qed.

(** A string is encoded through the low bytes of its code units. *)
Lemma encode_string_bytes (s : jsstring) :
  base58Encode (InString s) = base58Encode (InBytes (map to_uint8 s)).
Proof. unfold base58Encode. simpl. now rewrite length_map. Qed.

Lemma alias_eq_iff (p q : jsstring) :
  alias p = alias q <-> map to_uint8 p = map to_uint8 q.
Proof.
  unfold alias. rewrite !encode_string_bytes. split.
  - intros E. apply app_inv_head in E. now apply encode_injective.
  - intros ->. reflexivity.
Qed.

Lemma to_uint8_small (c : N) : (c < 256)%N -> Byte.to_N (to_uint8 c) = c.
Proof.
  intros Hc. unfold to_uint8. rewrite N.mod_small by exact Hc.
  destruct (Byte.of_N c) as [b|] eqn:E.
  - now apply Byte.to_of_N.
  - apply Byte.of_N_None_iff in E. lia.
Qed.

(** On paths whose code units all fit a byte, the alias is injective. *)
Lemma alias_injective_bytes (p q : jsstring) :
  Forall (fun c => (c < 256)%N) p -> Forall (fun c => (c < 256)%N) q ->
  alias p = alias q -> p = q.
Proof.
  intros Hp Hq E. apply alias_eq_iff in E.
  revert q Hq E. induction Hp as [|c p Hc Hp IH]; intros q Hq E.
  - destruct q; [reflexivity | discriminate].
  - destruct Hq as [|d q Hd Hq]; [discriminate|].
    simpl in E. injection E as E1 E2.
    f_equal; [|now apply IH].
    rewrite <- (to_uint8_small c Hc), <- (to_uint8_small d Hd). congruence.
Qed.

End AliasFacts.

(** ** Dictionaries: the keys of an object *)

Module JsObjectFacts.

Import JsObject.

Lemma str_eqb_eq (a b : jsstring) : str_eqb a b = true <-> a = b.
Proof. unfold str_eqb. apply bool_decide_eq_true. Qed.

Lemma str_eqb_neq (a b : jsstring) : str_eqb a b = false <-> a <> b.
Proof. unfold str_eqb. apply bool_decide_eq_false. Qed.

Lemma set_keys {V : Type} (o : t V) (k : jsstring) (v : V) :
  map fst (set o k v) = if bool_decide (k ∈ map fst o) then map fst o else map fst o ++ [k].
Proof.
  induction o as [|[k' v'] o IH]; [reflexivity|].
  cbn [set map fst]. destruct (str_eqb k' k) eqn:E.
  - apply str_eqb_eq in E. subst k'. rewrite bool_decide_eq_true_2 by constructor.
    reflexivity.
  - apply str_eqb_neq in E. cbn [map fst]. rewrite IH.
    destruct (bool_decide (k ∈ map fst o)) eqn:Hin.
    + apply bool_decide_eq_true in Hin.
      rewrite bool_decide_eq_true_2 by (now constructor). reflexivity.
    + apply bool_decide_eq_false in Hin.
      rewrite bool_decide_eq_false_2; [reflexivity|].
      intros [->|H]%elem_of_cons; [now apply E | now apply Hin].
Qed.

Lemma set_get {V : Type} (o : t V) (k k' : jsstring) (v : V) :
  get (set o k v) k' = if str_eqb k k' then Some v else get o k'.
Proof.
  induction o as [|[k0 v0] o IH]; [reflexivity|].
  cbn [set]. destruct (str_eqb k0 k) eqn:E.
  - apply str_eqb_eq in E. subst k0. cbn [get]. now destruct (str_eqb k k').
  - cbn [get]. rewrite IH. destruct (str_eqb k0 k') eqn:E'; [|reflexivity].
    apply str_eqb_eq in E'. subst k0. apply str_eqb_neq in E.
    destruct (str_eqb k k') eqn:E2; [|reflexivity].
    apply str_eqb_eq in E2. congruence.
Qed.

Lemma insert_key_perm (k : jsstring) (l : list jsstring) : insert_key k l ≡ₚ k :: l.
Proof.
  induction l as [|k' l IH]; [reflexivity|].
  cbn [insert_key]. destruct (index_of k <=? index_of k')%N; [reflexivity|].
  rewrite IH. apply Permutation_swap.
Qed.

Lemma sort_keys_perm (l : list jsstring) : sort_keys l ≡ₚ l.
Proof.
  induction l as [|k l IH]; [reflexivity|].
  cbn [sort_keys foldr]. fold (sort_keys l). now rewrite insert_key_perm, IH.
Qed.

(** [Object.keys] lists every own property once. *)
Lemma keys_perm {V : Type} (o : t V) : keys o ≡ₚ map fst o.
Proof.
  unfold keys. rewrite sort_keys_perm.
  induction (map fst o) as [|k l IH]; [reflexivity|].
  cbn [List.filter]. destruct (is_index k); cbn [negb].
  - cbn [app]. now rewrite IH.
  - rewrite <- Permutation_middle. now rewrite IH.
Qed.

(** Array indices come first, in ascending order; [__proto__] is not
    stored. *)
Example keys_order :
  keys (assign (assign (assign (assign (assign empty (js "b") 1%nat) (js "10") 2%nat)
                          (js "__proto__") 3%nat) (js "2") 4%nat) (js "a") 5%nat)
  = [js "2"; js "10"; js "b"; js "a"].
Proof. vm_compute. reflexivity. Qed.

Lemma elem_of_keys {V : Type} (o : t V) (k : jsstring) :
  k ∈ keys o <-> k ∈ map fst o.
Proof. now rewrite keys_perm. Qed.

Lemma NoDup_keys {V : Type} (o : t V) : NoDup (map fst o) -> NoDup (keys o).
Proof. now rewrite keys_perm. Qed.

End JsObjectFacts.

(** ** The monad *)

Module MFacts.

Lemma bind_ok_inv {A B : Type} (c : M A) (k : A -> M B) (t : list event) (b : B) :
  bind c k = (t, Ok b) ->
  exists t1 a t2, c = (t1, Ok a) /\ k a = (t2, Ok b) /\ t = t1 ++ t2.
Proof.
  destruct c as [t1 [a|e]]; simpl; [|discriminate].
  destruct (k a) as [t2 r] eqn:E. intros [= <- ->]. eauto 6.
Qed.

Lemma bind_ok {A B : Type} (t : list event) (a : A) (k : A -> M B) :
  bind (t, Ok a) k = (t ++ fst (k a), snd (k a)).
Proof. simpl. now destruct (k a). Qed.

Lemma bind_throw {A B : Type} (t : list event) (e : thrown) (k : A -> M B) :
  bind (t, Throw e) k = (t, Throw e).
Proof. reflexivity. Qed.

Lemma bind_ret_l {A B : Type} (a : A) (k : A -> M B) : bind (ret a) k = k a.
Proof. unfold ret. simpl. now destruct (k a). Qed.

End MFacts.

(** ** getRepoFiles: the three buckets *)

Module RepoFilesFacts.

Import JsObject JsObjectFacts MFacts.

Lemma input_files_snoc (files : list jsstring) (f : jsstring) :
  input_files (files ++ [f]) = assign (input_files files) f (alias f).
Proof. unfold input_files. now rewrite fold_left_app. Qed.

Lemma assign_elem_of {V : Type} (o : t V) (k k' : jsstring) (v : V) :
  k' ∈ map fst (assign o k v)
  <-> k' ∈ map fst o \/ (k' = k /\ k <> js "__proto__").
Proof.
  unfold assign. destruct (str_eqb k (js "__proto__")) eqn:Ek.
  - apply str_eqb_eq in Ek. intuition congruence.
  - apply str_eqb_neq in Ek. rewrite set_keys.
    destruct (bool_decide (k ∈ map fst o)) eqn:Hk.
    + apply bool_decide_eq_true in Hk. intuition congruence.
    + rewrite elem_of_app, list_elem_of_singleton. intuition congruence.
Qed.

Lemma assign_NoDup {V : Type} (o : t V) (k : jsstring) (v : V) :
  NoDup (map fst o) -> NoDup (map fst (assign o k v)).
Proof.
  intros Hnd. unfold assign. destruct (str_eqb k (js "__proto__")); [exact Hnd|].
  rewrite set_keys. destruct (bool_decide (k ∈ map fst o)) eqn:Hk; [exact Hnd|].
  apply bool_decide_eq_false in Hk. apply NoDup_app. split; [exact Hnd|]. split.
  - intros x Hx ->%list_elem_of_singleton. now apply Hk.
  - apply NoDup_singleton.
Qed.

Lemma input_files_NoDup (files : list jsstring) : NoDup (map fst (input_files files)).
Proof.
  induction files as [|f files IH] using rev_ind; [constructor|].
  rewrite input_files_snoc. now apply assign_NoDup.
Qed.

Lemma input_files_elem_of (files : list jsstring) (k : jsstring) :
  k ∈ map fst (input_files files) <-> tracked files k.
Proof.
  unfold tracked. induction files as [|f files IH] using rev_ind.
  - split; [intros H | intros [H _]]; inversion H.
  - rewrite input_files_snoc, assign_elem_of, IH, elem_of_app, list_elem_of_singleton.
    intuition congruence.
Qed.

Lemma input_files_get (files : list jsstring) (k : jsstring) :
  k ∈ map fst (input_files files) -> get (input_files files) k = Some (alias k).
Proof.
  induction files as [|f files IH] using rev_ind; [intros H; inversion H|].
  rewrite input_files_snoc. intros Hin. apply assign_elem_of in Hin.
  unfold assign in *. destruct (str_eqb f (js "__proto__")) eqn:Ef.
  - apply str_eqb_eq in Ef. apply IH. intuition congruence.
  - rewrite set_get. destruct (str_eqb f k) eqn:Efk.
    + apply str_eqb_eq in Efk. now subst k.
    + apply str_eqb_neq in Efk. apply IH. intuition congruence.
Qed.

Lemma classify_create_modify_spec (request : RepoFilesQueryResponseType)
    (o : t jsstring) :
  classify_create_modify request o
  = (List.filter (fun f => loose_eq_null (file_result request o f)) (keys o),
     List.filter (fun f => loose_ne_null (file_result request o f)) (keys o)).
Proof.
  unfold classify_create_modify.
  enough (H : forall l c m,
             fold_left
               (fun '(createFiles, modifyFiles) file =>
                  let fileResult := file_result request o file in
                  let modifyFiles :=
                    if loose_ne_null fileResult then modifyFiles ++ [file]
                    else modifyFiles in
                  let createFiles :=
                    if loose_eq_null fileResult then createFiles ++ [file]
                    else createFiles in
                  (createFiles, modifyFiles)) l (c, m)
             = (c ++ List.filter (fun f => loose_eq_null (file_result request o f)) l,
                m ++ List.filter (fun f => loose_ne_null (file_result request o f)) l))
    by apply (H _ [] []).
  induction l as [|f l IH]; intros c m; cbn [fold_left List.filter].
  - now rewrite !app_nil_r.
  - rewrite IH.
    destruct (loose_ne_null (file_result request o f)),
             (loose_eq_null (file_result request o f));
      now rewrite <- ?app_assoc.
Qed.

Lemma classify_delete_spec (request : RepoFilesQueryResponseType) (o : t jsstring) :
  snd (classify_delete request o)
  = Ok (List.filter (fun f => loose_ne_null (file_result request o f)) (keys o)).
Proof.
  unfold classify_delete.
  enough (H : forall l d,
             snd (foldM
                    (fun deleteFiles file =>
                       let fileResult := file_result request o file in
                       let deleteFiles :=
                         if loose_ne_null fileResult then deleteFiles ++ [file]
                         else deleteFiles in
                       (if loose_eq_null fileResult
                        then emit (EvInfo (js "input 'delete_file' not found in remote: "
                                             ++ file ++ js "; ignoring"))
                        else ret tt) ;;;
                       ret deleteFiles) l d)
             = Ok (d ++ List.filter (fun f => loose_ne_null (file_result request o f)) l))
    by apply (H _ []).
  induction l as [|f l IH]; intros d; cbn [foldM List.filter].
  - simpl. now rewrite app_nil_r.
  - specialize (IH (if loose_ne_null (file_result request o f) then d ++ [f] else d)).
    destruct (loose_ne_null (file_result request o f)),
             (loose_eq_null (file_result request o f));
      cbn [emit ret bind] in *;
      match goal with
      | |- context [foldM ?f ?l ?d] => destruct (foldM f l d) as [t0 r0]
      end; simpl in *; rewrite IH, <- ?app_assoc; reflexivity.
Qed.

Lemma file_result_alias (request : RepoFilesQueryResponseType)
    (files : list jsstring) (f : jsstring) :
  f ∈ keys (input_files files) ->
  file_result request (input_files files) f = target request !! alias f.
Proof.
  intros Hf. unfold file_result.
  rewrite input_files_get by now apply elem_of_keys. reflexivity.
Qed.

Lemma bucket_nonempty_or_undefined (l : list jsstring) :
  bucket (nonempty_or_undefined l) = l.
Proof. now destruct l. Qed.

(** What a successful run of [getRepoFiles] returns, on the answer
    [request] of the transport. *)
Lemma getRepoFiles_ok (w : World) (token : jsstring) (owner repo : option jsstring)
    (branch : jsstring) (files deletes : list jsstring)
    (tr : list event) (r : RepoFilesActionType) :
  getRepoFiles w token owner repo branch files deletes = (tr, Ok r) ->
  exists request,
    r = {| createFiles :=
             nonempty_or_undefined
               (List.filter (fun f => loose_eq_null (target request !! alias f))
                  (keys (input_files files)));
           modifyFiles :=
             nonempty_or_undefined
               (List.filter (fun f => loose_ne_null (target request !! alias f))
                  (keys (input_files files)));
           deleteFiles :=
             nonempty_or_undefined
               (List.filter (fun f => loose_ne_null (target request !! alias f))
                  (keys (input_files deletes))) |}.
Proof.
  unfold getRepoFiles. intros H.
  apply bind_ok_inv in H as (t1 & [] & t2 & _ & H & _).
  apply bind_ok_inv in H as (t3 & request & t4 & _ & H & _).
  exists request. rewrite classify_create_modify_spec in H.
  apply bind_ok_inv in H as (t5 & d & t6 & Hd & H & _).
  injection H as _ <-.
  assert (Ed : d = List.filter (fun f => loose_ne_null (target request !! alias f))
                     (keys (input_files deletes))).
  { destruct deletes as [|d0 deletes].
    - simpl in Hd. now injection Hd as _ <-.
    - cbn [length Nat.eqb negb] in Hd.
      pose proof (classify_delete_spec request (input_files (d0 :: deletes))) as Hs.
      rewrite Hd in Hs. simpl in Hs. injection Hs as ->.
      apply filter_ext_in. intros f Hf%list_elem_of_In.
      now rewrite file_result_alias. }
  subst d. f_equal; f_equal; apply filter_ext_in; intros f Hf%list_elem_of_In;
    now rewrite file_result_alias.
Qed.

End RepoFilesFacts.

(** ** createCommit: the file changes *)

Module CommitFacts.

Import MFacts.

Lemma foldM_silent {A S : Type} (f : S -> A -> M S) (l : list A) :
  (forall s x, fst (f s x) = []) -> forall s, fst (foldM f l s) = [].
Proof.
  intros Hf. induction l as [|x l IH]; intros s; [reflexivity|].
  cbn [foldM]. specialize (Hf s x). destruct (f s x) as [t [s'|e]]; simpl in *.
  - subst t. specialize (IH s'). destruct (foldM f l s'). simpl in *. now subst.
  - exact Hf.
Qed.

Lemma foldM_invariant {A S : Type} (f : S -> A -> M S) (I : S -> Prop) (l : list A) :
  (forall s x t s', f s x = (t, Ok s') -> I s -> I s') ->
  forall s t s', foldM f l s = (t, Ok s') -> I s -> I s'.
Proof.
  intros Hf. induction l as [|x l IH]; intros s t s' H Hs.
  - injection H as _ <-. exact Hs.
  - cbn [foldM] in H. apply bind_ok_inv in H as (t1 & s1 & t2 & H1 & H2 & _).
    eapply IH; [exact H2|]. eapply Hf; eassumption.
Qed.

Section Build.

Variable w : World.

Lemma add_files_silent (files : option (list jsstring)) (fc : CommitFileChangesType) :
  fst (add_files w files fc) = [].
Proof.
  destruct files as [files|]; [|reflexivity]. cbn [add_files].
  apply foldM_silent. intros s x. unfold lift, push_addition.
  destruct (readFileSync_base64 w x); [|reflexivity].
  simpl. now destruct (additions s).
Qed.

Lemma add_files_shape (files : option (list jsstring)) (fc fc' : CommitFileChangesType)
    (P : bool) (D : option (list CommitFileChangeType)) (t : list event) :
  add_files w files fc = (t, Ok fc') ->
  (is_Some (additions fc) <-> P) /\ deletions fc = D ->
  (is_Some (additions fc') <-> P) /\ deletions fc' = D.
Proof.
  destruct files as [files|]; cbn [add_files]; [|now intros [= _ <-]].
  apply (foldM_invariant _ (fun fc => (is_Some (additions fc) <-> P) /\ deletions fc = D)).
  clear. intros s x t s' H [Ha Hd].
  apply bind_ok_inv in H as (t1 & c & t2 & _ & H & _).
  unfold push_addition in H. destruct (additions s) as [a|] eqn:Ea; [|discriminate].
  injection H as _ <-. cbn. split; [|exact Hd].
  rewrite <- Ha. split; intros _; eauto.
Qed.

Lemma build_fileChanges_silent (fileActions : RepoFilesActionType) :
  fst (build_fileChanges w fileActions) = [].
Proof.
  unfold build_fileChanges.
  match goal with
  | |- context [add_files w (createFiles fileActions) ?fc] => set (fc0 := fc)
  end.
  pose proof (add_files_silent (createFiles fileActions) fc0) as H1.
  destruct (add_files w (createFiles fileActions) fc0) as [t1 [fc1|e]]; simpl in H1;
    subst t1; [|reflexivity].
  rewrite bind_ok. cbn [app].
  pose proof (add_files_silent (modifyFiles fileActions) fc1) as H2.
  destruct (add_files w (modifyFiles fileActions) fc1) as [t2 [fc2|e]]; simpl in H2;
    subst t2; [|reflexivity].
  rewrite bind_ok. cbn [app].
  destruct (deleteFiles fileActions) as [files|]; [|reflexivity].
  apply foldM_silent. intros s x. unfold push_deletion. now destruct (deletions s).
Qed.

(** Which fields the built [fileChanges] carries. *)
Lemma build_fileChanges_fields (fileActions : RepoFilesActionType)
    (t : list event) (fc : CommitFileChangesType) :
  build_fileChanges w fileActions = (t, Ok fc) ->
  (is_Some (additions fc)
   <-> is_Some (createFiles fileActions) \/ is_Some (modifyFiles fileActions))
  /\ (is_Some (deletions fc) <-> is_Some (deleteFiles fileActions)).
Proof.
  unfold build_fileChanges. intros H.
  apply bind_ok_inv in H as (t1 & fc1 & t2 & H1 & H & _).
  apply bind_ok_inv in H as (t3 & fc2 & t4 & H2 & H & _).
  set (P := bool_decide (createFiles fileActions <> None)
            || bool_decide (modifyFiles fileActions <> None)) in *.
  assert (HP : P <-> is_Some (createFiles fileActions) \/ is_Some (modifyFiles fileActions)).
  { unfold P. rewrite orb_True, !bool_decide_spec, <- !not_eq_None_Some. reflexivity. }
  eapply (add_files_shape _ _ _ P None) in H1.
  2:{ destruct P; cbn; (split; [|reflexivity]); split; intros HH;
      first [ exact I | eexists; reflexivity
            | destruct HH as [? HH']; discriminate HH' | destruct HH ]. }
  eapply add_files_shape in H2; [|exact H1]. destruct H2 as [Ha Hd].
  rewrite <- HP, <- Ha. clear HP Ha H1.
  destruct (deleteFiles fileActions) as [files|].
  - apply (foldM_invariant _ (fun fc' => additions fc' = additions fc2
                                         /\ is_Some (deletions fc'))) in H.
    + destruct H as [-> H]. split; [reflexivity|]. split; eauto.
    + clear. intros s x t s' H [Ha Hd]. unfold push_deletion in H.
      destruct (deletions s); [|discriminate]. injection H as _ <-. cbn. eauto.
    + cbn. eauto.
  - injection H as _ <-. split; [reflexivity|]. rewrite Hd.
    split; intros HH; inversion HH; discriminate.
Qed.

End Build.

End CommitFacts.

(** * The claims *)

Import Base58 Base58Decode Samples.

(** C8.  [base58Encode] on byte sequences: decoding the encoding gives the
    bytes back, so the encoding is injective; the empty input gives the
    empty string; the output starts with one [1] for every leading zero
    byte of the input, and with no more. *)
Theorem base58_round_trip :
  (forall bs : list byte, base58Decode (base58Encode (InBytes bs)) = Some bs)
  /\ (forall bs bs' : list byte,
         base58Encode (InBytes bs) = base58Encode (InBytes bs') -> bs = bs')
  /\ base58Encode (InBytes []) = []
  /\ base58Encode (InString []) = []
  /\ (forall bs : list byte,
         exists rest,
           base58Encode (InBytes bs) = repeat 49%N (leading_zeros bs) ++ rest
           /\ head rest <> Some 49%N).
Proof.
  split; [exact Base58Facts.decode_encode|].
  split; [exact AliasFacts.encode_injective|].
  do 2 (split; [reflexivity|]).
  intros bs. destruct (Base58Facts.base58Encode_shape bs) as (ds & Hr & _ & Hl & E).
  eexists. split; [exact E|]. now apply Base58Facts.head_digits.
Qed.

(** C8 at the bytes [00 00 68 69]. *)
Lemma base58_round_trip_sample :
  base58Decode (base58Encode (InBytes [x00; x00; x68; x69])) = Some [x00; x00; x68; x69]
  /\ base58Encode (InBytes [x00; x00; x68; x69]) = js "118wr".
Proof.
  split; [apply (proj1 base58_round_trip) | vm_compute; reflexivity].
Defined.

(** C3.  The alias is not injective on path strings: the code units of a
    path are cut to their low eight bits before they are encoded, so a
    path with the letter U+0141 and the path with [A] in its place get one
    alias. *)
Theorem alias_collision :
  path_L_stroke <> js "A.txt"
  /\ alias path_L_stroke = alias (js "A.txt")
  /\ alias (js "A.txt") = js "_8MXRWGT".
Proof.
  split; [discriminate|]. split; vm_compute; reflexivity.
Qed.

Lemma elem_of_filter_keys (g : jsstring -> bool) (files : list jsstring) (p : jsstring) :
  p ∈ List.filter g (JsObject.keys (input_files files)) <-> tracked files p /\ g p = true.
Proof.
  rewrite list_elem_of_In, filter_In, <- list_elem_of_In.
  now rewrite JsObjectFacts.elem_of_keys, RepoFilesFacts.input_files_elem_of.
Qed.

Lemma NoDup_List_filter {A : Type} (g : A -> bool) (l : list A) :
  NoDup l -> NoDup (List.filter g l).
Proof.
  induction 1 as [|x l Hx Hnd IH]; simpl; [constructor|].
  destruct (g x); [|exact IH]. constructor; [|exact IH].
  intros Hin%list_elem_of_In%filter_In. apply Hx, list_elem_of_In, Hin.
Qed.

Lemma NoDup_filter_keys (g : jsstring -> bool) (files : list jsstring) :
  NoDup (List.filter g (JsObject.keys (input_files files))).
Proof.
  apply NoDup_List_filter, JsObjectFacts.NoDup_keys, RepoFilesFacts.input_files_NoDup.
Qed.

Lemma loose_null_excl (v : option (option jsstring)) :
  loose_eq_null v = true -> loose_ne_null v = true -> False.
Proof. destruct v as [[?|]|]; discriminate. Qed.

(** C2, as the code has it.  In the result of [getRepoFiles] the bucket
    [createFiles] shares no path with [modifyFiles] or with [deleteFiles]
    and no bucket lists a path twice; a path of [modifyFiles] is in
    [deleteFiles] as well exactly when the delete candidates list it. *)
Theorem getRepoFiles_buckets (w : World) (token : jsstring)
    (owner repo : option jsstring) (branch : jsstring)
    (files deletes : list jsstring) (tr : list event) (r : RepoFilesActionType) :
  getRepoFiles w token owner repo branch files deletes = (tr, Ok r) ->
  (forall p, p ∈ bucket (createFiles r) ->
        (p ∉ bucket (modifyFiles r)) /\ (p ∉ bucket (deleteFiles r)))
  /\ NoDup (bucket (createFiles r))
  /\ NoDup (bucket (modifyFiles r))
  /\ NoDup (bucket (deleteFiles r))
  /\ (forall p, p ∈ bucket (modifyFiles r) ->
           (p ∈ bucket (deleteFiles r) <-> p ∈ deletes)).
Proof.
  intros H. apply RepoFilesFacts.getRepoFiles_ok in H as [request ->].
  cbn [createFiles modifyFiles deleteFiles].
  rewrite !RepoFilesFacts.bucket_nonempty_or_undefined.
  split; [|split; [|split; [|split]]]; try apply NoDup_filter_keys.
  - intros p [_ Hc]%elem_of_filter_keys.
    split; intros [_ Hm]%elem_of_filter_keys; eapply loose_null_excl; eassumption.
  - intros p [[_ Hp] Hm]%elem_of_filter_keys. rewrite elem_of_filter_keys.
    unfold tracked. intuition.
Qed.

(** C2, as stated, fails: a path listed in both inputs and present on the
    remote branch is returned in [modifyFiles] and in [deleteFiles]. *)
Lemma getRepoFiles_modify_and_delete :
  snd (getRepoFiles
         (sample_world [] [js "a.txt"] [] (remote_has [js "a.txt"]) commit_ok)
         (js "ghs_sample") (Some (js "octocat")) (Some (js "Hello-World"))
         (js "main") [js "a.txt"] [js "a.txt"])
  = Ok {| createFiles := None;
          modifyFiles := Some [js "a.txt"];
          deleteFiles := Some [js "a.txt"] |}.
Proof. vm_compute. reflexivity. Qed.

(** C2 at a run with one path for each bucket and a delete candidate that
    the remote branch does not have. *)
Lemma getRepoFiles_buckets_sample :
  NoDup [js "new.txt"]
  /\ (forall p, p ∈ [js "a.txt"] ->
           (p ∈ [js "old.txt"] <-> p ∈ [js "old.txt"; js "gone.txt"])).
Proof.
  pose (world := sample_world [] [js "a.txt"; js "new.txt"] []
                   (remote_has [js "a.txt"; js "old.txt"]) commit_ok).
  pose (run := getRepoFiles world (js "ghs_sample") (Some (js "octocat"))
                 (Some (js "Hello-World")) (js "main")
                 [js "new.txt"; js "a.txt"] [js "old.txt"; js "gone.txt"]).
  assert (H : run = (fst run,
                     Ok {| createFiles := Some [js "new.txt"];
                           modifyFiles := Some [js "a.txt"];
                           deleteFiles := Some [js "old.txt"] |}))
    by (vm_compute; reflexivity).
  pose proof (getRepoFiles_buckets _ _ _ _ _ _ _ _ _ H) as (_ & Hc & _ & _ & Hmd).
  exact (conj Hc Hmd).
Defined.

Lemma check_errors_silent (resp : CreateCommitResponseType) :
  fst (check_errors resp) = [].
Proof. unfold check_errors. now destruct (errors resp). Qed.

(** [createCommit] sends one request, after [fileChanges] is built, and
    nothing when a file cannot be read. *)
Lemma createCommit_trace (w : World) (token : jsstring) (owner repo : option jsstring)
    (branch : jsstring) (message : CommitMessageType)
    (fileActions : RepoFilesActionType) :
  fst (createCommit w token owner repo branch message fileActions)
  = match snd (build_fileChanges w fileActions) with
    | Ok fc => [EvMutation token mutation_query
                  (commit_input w owner repo branch message fc)]
    | Throw _ => []
    end.
Proof.
  unfold createCommit.
  pose proof (CommitFacts.build_fileChanges_silent w fileActions) as Hs.
  destruct (build_fileChanges w fileActions) as [tb [fc|e]]; simpl in Hs; subst tb;
    [|reflexivity].
  rewrite MFacts.bind_ok. cbn [app fst snd]. fold (commit_input w owner repo branch message fc).
  unfold emit. rewrite MFacts.bind_ok. cbn [fst].
  destruct (requestMutation w token mutation_query
              (commit_input w owner repo branch message fc)) as [resp|e];
    unfold lift; [|reflexivity].
  rewrite MFacts.bind_ok. cbn [fst app]. now rewrite check_errors_silent.
Qed.

(** C6.  A bucket of the result of [getRepoFiles] is never an empty
    sequence, and in the mutation input that [createCommit] sends the field
    [additions] is present exactly when [createFiles] or [modifyFiles] is,
    and [deletions] exactly when [deleteFiles] is. *)
Theorem empty_buckets_omitted (w : World) (token : jsstring)
    (owner repo : option jsstring) (branch : jsstring) :
  (forall files deletes tr r,
      getRepoFiles w token owner repo branch files deletes = (tr, Ok r) ->
      createFiles r <> Some [] /\ modifyFiles r <> Some [] /\ deleteFiles r <> Some [])
  /\ (forall message fileActions tok q input,
         EvMutation tok q input
           ∈ fst (createCommit w token owner repo branch message fileActions) ->
         (is_Some (additions (fileChanges input))
          <-> is_Some (createFiles fileActions) \/ is_Some (modifyFiles fileActions))
         /\ (is_Some (deletions (fileChanges input))
             <-> is_Some (deleteFiles fileActions))).
Proof.
  split.
  - intros files deletes tr r H.
    apply RepoFilesFacts.getRepoFiles_ok in H as [request ->].
    cbn [createFiles modifyFiles deleteFiles]. unfold nonempty_or_undefined.
    repeat split;
      match goal with
      | |- (if negb (Nat.eqb (length ?l) 0) then _ else _) <> _ =>
          destruct l; simpl; congruence
      end.
  - intros message fileActions tok q input Hin.
    rewrite createCommit_trace in Hin.
    destruct (build_fileChanges w fileActions) as [tb [fc|e]] eqn:Hb; cbn [snd] in Hin;
      [|inversion Hin].
    apply list_elem_of_singleton in Hin. injection Hin as _ _ ->.
    cbn [commit_input fileChanges].
    eapply CommitFacts.build_fileChanges_fields. exact Hb.
Qed.

(** C6 at a run that creates one file. *)
Lemma empty_buckets_omitted_sample :
  (createFiles {| createFiles := Some [js "new.txt"]; modifyFiles := None;
                  deleteFiles := None |} <> Some []
   /\ (None : option (list jsstring)) <> Some []
   /\ (None : option (list jsstring)) <> Some [])
  /\ (is_Some (Some [{| path := js "new.txt"; contents := Some (js "Zm9v") |}])
      <-> is_Some (Some [js "new.txt"]) \/ is_Some (None : option (list jsstring)))
  /\ (is_Some (None : option (list CommitFileChangeType))
      <-> is_Some (None : option (list jsstring))).
Proof.
  pose (world := sample_world [] [js "new.txt"] [] (remote_has []) commit_ok).
  pose (r := {| createFiles := Some [js "new.txt"]; modifyFiles := None;
                deleteFiles := None |}).
  pose (msg := {| default_ := None; headline := js "Add new.txt"; body := None |}).
  pose (run := getRepoFiles world (js "ghs_sample") (Some (js "octocat"))
                 (Some (js "Hello-World")) (js "main") [js "new.txt"] []).
  destruct (empty_buckets_omitted world (js "ghs_sample") (Some (js "octocat"))
              (Some (js "Hello-World")) (js "main")) as [Ha Hb].
  split.
  - apply (Ha [js "new.txt"] [] (fst run) r). vm_compute. reflexivity.
  - apply (Hb msg r (js "ghs_sample") mutation_query
             (commit_input world (Some (js "octocat")) (Some (js "Hello-World"))
                (js "main") msg
                {| additions := Some [{| path := js "new.txt";
                                         contents := Some (js "Zm9v") |}];
                   deletions := None |})).
    vm_compute. apply list_elem_of_singleton. reflexivity.
Defined.

Lemma fold_left_push {A B : Type} (g : A -> B) (l : list A) (out : list B) :
  fold_left (fun out x => out ++ [g x]) l out = out ++ map g l.
Proof.
  revert out. induction l as [|x l IH]; intros out; simpl.
  - now rewrite app_nil_r.
  - now rewrite IH, <- app_assoc.
Qed.

(** C7.  The default body: the lines [created  '<path>'], then
    [modified '<path>'], then [deleted  '<path>'], one per file and joined
    by line feeds; an absent bucket gives no line. *)
Theorem default_body_format :
  generateDefaultCommitMessageBody
    {| createFiles := Some [js "a.txt"];
       modifyFiles := Some [js "b.txt"];
       deleteFiles := Some [js "c.txt"] |}
  = js "created  'a.txt'" ++ [LF] ++ js "modified 'b.txt'" ++ [LF] ++ js "deleted  'c.txt'"
  /\ forall files : RepoFilesActionType,
      generateDefaultCommitMessageBody files
      = join [LF]
          (map (fun f => js "created  '" ++ f ++ js "'") (bucket (createFiles files))
             ++ map (fun f => js "modified '" ++ f ++ js "'") (bucket (modifyFiles files))
             ++ map (fun f => js "deleted  '" ++ f ++ js "'") (bucket (deleteFiles files))).
Proof.
  split; [vm_compute; reflexivity|].
  intros [c m d]. unfold generateDefaultCommitMessageBody, bucket.
  cbn [createFiles modifyFiles deleteFiles]. f_equal.
  destruct c as [c|], m as [m|], d as [d|]; cbn [default];
    rewrite ?fold_left_push, ?app_nil_l, ?app_nil_r, <- ?app_assoc; reflexivity.
Qed.

(** C5, as the code has it.  Once the request is answered, [createCommit]
    fails exactly when the answer has an [errors] field, empty or not; the
    message of the failure carries the JSON text of the array of the error
    messages, in the order of the answer; without the field the answer is
    returned as it is. *)
Theorem createCommit_rejection (w : World) (token : jsstring)
    (owner repo : option jsstring) (branch : jsstring) (message : CommitMessageType)
    (fileActions : RepoFilesActionType) (fc : CommitFileChangesType)
    (resp : CreateCommitResponseType) :
  snd (build_fileChanges w fileActions) = Ok fc ->
  requestMutation w token mutation_query (commit_input w owner repo branch message fc)
  = Ok resp ->
  snd (createCommit w token owner repo branch message fileActions)
  = match errors resp with
    | Some errs =>
        Throw (ThrowError (js "error(s) processing the commit: "
                             ++ JSON_stringify_strings (map error_message errs)))
    | None => Ok resp
    end.
Proof.
  intros Hb Hr. unfold createCommit.
  destruct (build_fileChanges w fileActions) as [tb r]. cbn [snd] in Hb. subst r.
  rewrite MFacts.bind_ok. cbn [snd]. fold (commit_input w owner repo branch message fc).
  unfold emit. rewrite MFacts.bind_ok. cbn [snd]. rewrite Hr.
  unfold lift. rewrite MFacts.bind_ok. cbn [snd].
  unfold check_errors. destruct (errors resp) as [errs|]; [|reflexivity].
  cbn [throwError throw snd]. now rewrite fold_left_push.
Qed.

(** C5, the sample of the specification: two errors, both messages in the
    failure, in their order. *)
Lemma createCommit_rejection_sample :
  snd (createCommit
         (sample_world [] [js "a.txt"] [] (remote_has [])
            (Ok {| data := None;
                   errors := Some [error_of (js "ref not found");
                                   error_of (js "oid mismatch")] |}))
         (js "ghs_sample") (Some (js "octocat")) (Some (js "Hello-World")) (js "main")
         {| default_ := None; headline := js "Add a.txt"; body := None |}
         {| createFiles := Some [js "a.txt"]; modifyFiles := None; deleteFiles := None |})
  = Throw (ThrowError
             (js "error(s) processing the commit: [" ++ [QUOTE] ++ js "ref not found"
                ++ [QUOTE] ++ js "," ++ [QUOTE] ++ js "oid mismatch" ++ [QUOTE] ++ js "]")).
Proof.
  etransitivity.
  - eapply createCommit_rejection; vm_compute; reflexivity.
  - vm_compute. reflexivity.
Defined.

(** C5, as stated, fails: an empty error list makes [createCommit] fail
    too. *)
Lemma createCommit_rejects_empty_error_list :
  snd (createCommit
         (sample_world [] [js "a.txt"] [] (remote_has [])
            (Ok {| data := Some (js "https://github.test/octocat/Hello-World/commit/1");
                   errors := Some [] |}))
         (js "ghs_sample") (Some (js "octocat")) (Some (js "Hello-World")) (js "main")
         {| default_ := None; headline := js "Add a.txt"; body := None |}
         {| createFiles := Some [js "a.txt"]; modifyFiles := None; deleteFiles := None |})
  = Throw (ThrowError (js "error(s) processing the commit: []")).
Proof. vm_compute. reflexivity. Qed.

Lemma split_on_absent (sep : N) (s : jsstring) : sep ∉ s -> split_on sep s = [s].
Proof.
  induction s as [|c s IH]; [reflexivity|]. intros Hn.
  cbn [split_on]. destruct (N.eqb_spec c sep) as [->|Hc].
  - exfalso. apply Hn. constructor.
  - rewrite IH; [reflexivity|]. intros H. apply Hn. now constructor.
Qed.

(** C1, the failing half.  An explicit [repository] input without a slash
    is not refused: [getInputRepository] returns it as the owner, with an
    undefined repository name. *)
Theorem getInputRepository_no_slash (w : World) :
  getInput w (js "repository") <> [] ->
  SLASH ∉ getInput w (js "repository") ->
  getInputRepository w
  = ([], Ok {| owner := Some (getInput w (js "repository")); repository := None |}).
Proof.
  intros Hne Hslash. unfold getInputRepository, parse_repository.
  apply JsObjectFacts.str_eqb_neq in Hne. rewrite Hne. cbn [andb negb].
  rewrite split_on_absent by exact Hslash. cbn.
  rewrite bool_decide_eq_false_2; [reflexivity|].
  intros [= E]. apply JsObjectFacts.str_eqb_neq in Hne. now apply Hne.
Qed.

(** C1 at the input [octocat]. *)
Lemma getInputRepository_no_slash_sample :
  getInputRepository
    (sample_world [(js "repository", js "octocat")] [] [] no_answer no_answer)
  = ([], Ok {| owner := Some (js "octocat"); repository := None |}).
Proof.
  apply (getInputRepository_no_slash
           (sample_world [(js "repository", js "octocat")] [] [] no_answer no_answer)).
  - discriminate.
  - rewrite list_elem_of_In. vm_compute. intuition discriminate.
Defined.

(** C1, the half that holds: owner and name of [OWNER/REPOSITORY]. *)
Lemma getInputRepository_owner_name :
  getInputRepository
    (sample_world [(js "repository", js "octocat/Hello-World")] [] [] no_answer no_answer)
  = ([], Ok {| owner := Some (js "octocat"); repository := Some (js "Hello-World") |}).
Proof. vm_compute. reflexivity. Qed.

(** The loop tests the first line and, when it is blank, goes on with the
    third: the second line is never tested. *)
Lemma consume_blank_skips_second (l1 l2 l3 : jsstring) (rest : list jsstring) :
  trim l1 = [] -> trim l3 <> [] ->
  consume_blank (l1 :: l2 :: l3 :: rest) 0 = l2 :: l3 :: rest.
Proof.
  intros H1 H3. cbn. unfold str_eqb.
  rewrite bool_decide_eq_true_2 by exact H1.
  now rewrite bool_decide_eq_false_2 by exact H3.
Qed.

(** C4, at a message file that starts with two blank lines.  The loop
    drops one of them only; the other becomes the headline, and the title
    ends in the body.  A file of one line feed gives an empty headline and
    no failure. *)
Theorem getInputCommitMessage_file_blank_lines (w : World) :
  getInput w (js "message") = [] ->
  getInput w (js "message_file") <> [] ->
  existsSync w (getInput w (js "message_file")) = true ->
  (readFileSync_utf8 w (getInput w (js "message_file"))
   = Ok ([LF; LF] ++ js "Title" ++ [LF]) ->
   getInputCommitMessage w
   = ([], Ok {| default_ := None; headline := []; body := Some (js "Title") |}))
  /\ (readFileSync_utf8 w (getInput w (js "message_file")) = Ok [LF] ->
      getInputCommitMessage w
      = ([], Ok {| default_ := None; headline := []; body := None |})).
Proof.
  intros Hm Hf He. unfold getInputCommitMessage. rewrite Hm, He.
  apply JsObjectFacts.str_eqb_neq in Hf. rewrite Hf.
  change (str_eqb [] []) with true. cbn [andb negb].
  split; intros ->; vm_compute; reflexivity.
Qed.

(** C4 at a file that holds two line feeds, [Title] and a line feed. *)
Lemma getInputCommitMessage_file_blank_lines_sample :
  getInputCommitMessage
    (sample_world [(js "message_file", js "msg.txt")] [js "msg.txt"]
       ([LF; LF] ++ js "Title" ++ [LF]) no_answer no_answer)
  = ([], Ok {| default_ := None; headline := []; body := Some (js "Title") |}).
Proof.
  apply (getInputCommitMessage_file_blank_lines
           (sample_world [(js "message_file", js "msg.txt")] [js "msg.txt"]
              ([LF; LF] ++ js "Title" ++ [LF]) no_answer no_answer));
    first [discriminate | vm_compute; reflexivity].
Defined.

(** C4, the inline text: the sample of the specification. *)
Lemma getInputCommitMessage_inline_sample :
  getInputCommitMessage
    (sample_world
       [(js "message",
          [LF; LF] ++ js "Title line" ++ [LF; LF] ++ js "Body line 1" ++ [LF]
            ++ js "Body line 2" ++ [LF])]
       [] [] no_answer no_answer)
  = ([], Ok {| default_ := None; headline := js "Title line";
               body := Some (js "Body line 1" ++ [LF] ++ js "Body line 2") |}).
Proof. vm_compute. reflexivity. Qed.

(** ** The run: what the resolvers and the two requests emit *)

Module RunFacts.

Import MFacts.

Lemma Forall_bind {A B : Type} (P : event -> Prop) (c : M A) (k : A -> M B) :
  Forall P (fst c) -> (forall a, Forall P (fst (k a))) -> Forall P (fst (bind c k)).
Proof.
  intros Hc Hk. destruct c as [t [a|e]]; simpl in *; [|exact Hc].
  specialize (Hk a). destruct (k a) as [t' r]. simpl in *. now apply Forall_app.
Qed.

Lemma foldM_Forall {A S : Type} (P : event -> Prop) (f : S -> A -> M S) (l : list A) :
  (forall s x, Forall P (fst (f s x))) -> forall s, Forall P (fst (foldM f l s)).
Proof.
  intros Hf. induction l as [|x l IH]; intros s; [constructor|].
  cbn [foldM]. apply Forall_bind; auto.
Qed.

(** A failing sequence failed in its first part, or in what follows a
    success of the first part. *)
Lemma bind_throw_trace {A B : Type} (P : event -> Prop) (c : M A) (k : A -> M B)
    (tr : list event) (e : thrown) :
  bind c k = (tr, Throw e) ->
  Forall P (fst c) ->
  (forall a tr', k a = (tr', Throw e) -> Forall P tr') ->
  Forall P tr.
Proof.
  intros H Hc Hk. destruct c as [t [a|e']]; simpl in *.
  - destruct (k a) as [t' r] eqn:E. injection H as <- ->.
    apply Forall_app. split; [exact Hc | now apply (Hk a)].
  - injection H as <- _. exact Hc.
Qed.

Section Resolvers.

Variable w : World.

Lemma getInputBranch_silent : fst (getInputBranch w) = [].
Proof. unfold getInputBranch. repeat case_if; reflexivity. Qed.

Lemma expand_lines_silent (what : jsstring) (lines : list jsstring) :
  fst (expand_lines w what lines) = [].
Proof.
  apply CommitFacts.foldM_silent. intros s x. unfold lift.
  destruct (globSync w x) as [g|e]; [|reflexivity]. simpl.
  repeat case_if; reflexivity.
Qed.

Lemma getInputDeleteFiles_silent : fst (getInputDeleteFiles w) = [].
Proof.
  unfold getInputDeleteFiles. destruct (str_eqb _ _); [reflexivity|].
  pose proof (expand_lines_silent (js "delete_file")
                (List.filter (nonblank) (split_on LF (getInput w (js "delete_files"))))) as H.
  destruct (expand_lines w _ _) as [t [out|e]]; simpl in *; subst t; [|reflexivity].
  destruct (Nat.eqb _ _); reflexivity.
Qed.

Lemma getInputFiles_silent : fst (getInputFiles w) = [].
Proof.
  unfold getInputFiles, getInput_required. destruct (str_eqb _ _); [reflexivity|].
  rewrite bind_ret_l.
  pose proof (expand_lines_silent (js "file")
                (List.filter (nonblank) (split_on LF (getInput w (js "files"))))) as H.
  destruct (expand_lines w _ _) as [t [out|e]]; simpl in *; subst t; [|reflexivity].
  destruct (Nat.eqb _ _); reflexivity.
Qed.

Lemma message_of_lines_silent (lines : list jsstring) : fst (message_of_lines lines) = [].
Proof. unfold message_of_lines. now destruct (consume_blank lines 0). Qed.

Lemma getInputCommitMessage_silent : fst (getInputCommitMessage w) = [].
Proof.
  unfold getInputCommitMessage.
  repeat (case_if; try reflexivity); try apply message_of_lines_silent.
  unfold lift. destruct (readFileSync_utf8 w _) as [text|e]; [|reflexivity].
  rewrite bind_ok. simpl. apply message_of_lines_silent.
Qed.

Lemma getInputRepository_silent : fst (getInputRepository w) = [].
Proof.
  unfold getInputRepository, parse_repository.
  repeat (case_if; try reflexivity).
Qed.

Lemma getInputToken_trace (token : jsstring) :
  snd (getInputToken w) = Ok token -> getInputToken w = ([EvSetSecret token], Ok token).
Proof.
  unfold getInputToken. repeat (case_if; try discriminate);
    simpl; intros [= <-]; reflexivity.
Qed.

Lemma getInputToken_events (P : event -> Prop) :
  (forall s, P (EvSetSecret s)) -> Forall P (fst (getInputToken w)).
Proof.
  intros HP. unfold getInputToken.
  repeat case_if; simpl; repeat constructor; apply HP.
Qed.

Lemma checkFilesExist_silent (files : list jsstring) : fst (checkFilesExist w files) = [].
Proof.
  unfold checkFilesExist. induction files as [|f files IH]; [reflexivity|].
  cbn [for_of]. destruct (existsSync w f); cbn [negb].
  - rewrite bind_ret_l. exact IH.
  - reflexivity.
Qed.

(** The check stops at the first path that is missing. *)
Lemma checkFilesExist_missing (files : list jsstring) (p : jsstring) :
  p ∈ files -> existsSync w p = false ->
  exists q,
    q ∈ files /\ existsSync w q = false
    /\ checkFilesExist w files
       = ([], Throw (ThrowError (js "create/modify file '" ++ q ++ js "' does not exist"))).
Proof.
  unfold checkFilesExist. induction files as [|f files IH]; intros Hin Hp.
  - inversion Hin.
  - cbn [for_of]. destruct (existsSync w f) eqn:Ef; cbn [negb].
    + apply elem_of_cons in Hin as [->|Hin]; [congruence|].
      destruct (IH Hin Hp) as (q & Hq & Hqe & E). exists q.
      rewrite bind_ret_l. repeat split; auto. now constructor.
    + exists f. repeat split; auto. constructor.
Qed.

End Resolvers.

End RunFacts.

(** C9.  When the six resolvers succeed and a resolved create/modify path
    is missing on disk, the run reports
    [create/modify file '<path>' does not exist] for a missing path and
    ends; its trace is the secret registration and the failure report, so
    no request was sent. *)
Theorem main_local_existence_gate (w : World) (branch : jsstring)
    (deletes files : list jsstring) (message : CommitMessageType)
    (repo : RepositoryType) (token p : jsstring) :
  snd (getInputBranch w) = Ok branch ->
  snd (getInputDeleteFiles w) = Ok deletes ->
  snd (getInputFiles w) = Ok files ->
  snd (getInputCommitMessage w) = Ok message ->
  snd (getInputRepository w) = Ok repo ->
  snd (getInputToken w) = Ok token ->
  p ∈ files ->
  existsSync w p = false ->
  exists q,
    q ∈ files /\ existsSync w q = false
    /\ main w
       = ([EvSetSecret token;
           EvSetFailed (js "create/modify file '" ++ q ++ js "' does not exist")],
          Ok tt).
Proof.
  intros Hb Hd Hf Hm Hr Ht Hin Hp.
  destruct (RunFacts.checkFilesExist_missing w files p Hin Hp) as (q & Hq & Hqe & Hc).
  exists q. split; [exact Hq|]. split; [exact Hqe|].
  unfold main, main_body.
  pose proof (RunFacts.getInputBranch_silent w) as Sb.
  pose proof (RunFacts.getInputDeleteFiles_silent w) as Sd.
  pose proof (RunFacts.getInputFiles_silent w) as Sf.
  pose proof (RunFacts.getInputCommitMessage_silent w) as Sm.
  pose proof (RunFacts.getInputRepository_silent w) as Sr.
  apply RunFacts.getInputToken_trace in Ht.
  destruct (getInputBranch w) as [? ?], (getInputDeleteFiles w) as [? ?],
    (getInputFiles w) as [? ?], (getInputCommitMessage w) as [? ?],
    (getInputRepository w) as [? ?]; simpl in *; subst.
  rewrite Ht, Hc. reflexivity.
Qed.

(** C9 at a pattern that matches one file: the pattern itself is kept as
    the path, and it is not a file. *)
Lemma main_local_existence_gate_sample :
  exists q,
    q ∈ [js "*.txt"] /\ bool_decide (q ∈ [js "a.txt"]) = false
    /\ main (with_glob (fun _ => Ok [js "a.txt"])
               (sample_world [(js "files", js "*.txt")] [js "a.txt"] []
                  (remote_has []) commit_ok))
       = ([EvSetSecret (js "ghs_sample");
           EvSetFailed (js "create/modify file '" ++ q ++ js "' does not exist")],
          Ok tt).
Proof.
  apply (main_local_existence_gate
           (with_glob (fun _ => Ok [js "a.txt"])
              (sample_world [(js "files", js "*.txt")] [js "a.txt"] []
                 (remote_has []) commit_ok))
           (js "main") [] [js "*.txt"]
           {| default_ := Some true; headline := js "committed files"; body := None |}
           {| owner := Some (js "octocat"); repository := Some (js "Hello-World") |}
           (js "ghs_sample") (js "*.txt"));
    first [ vm_compute; reflexivity | constructor ].
Defined.

Lemma silent_Forall {A : Type} (P : event -> Prop) (c : M A) :
  fst c = [] -> Forall P (fst c).
Proof. intros ->. constructor. Qed.

Lemma getRepoFiles_quiet (w : World) (token : jsstring) (owner repo : option jsstring)
    (branch : jsstring) (files deletes : list jsstring) :
  Forall quiet (fst (getRepoFiles w token owner repo branch files deletes)).
Proof.
  unfold getRepoFiles. apply RunFacts.Forall_bind; [repeat constructor|]. intros _.
  apply RunFacts.Forall_bind; [constructor|]. intros request.
  destruct (classify_create_modify request (input_files files)) as [c m].
  apply RunFacts.Forall_bind; [|intros d; constructor].
  destruct (negb (Nat.eqb (length deletes) 0)); [|constructor].
  apply RunFacts.foldM_Forall. intros s x.
  apply RunFacts.Forall_bind; [|intros _; constructor].
  destruct (loose_eq_null _); repeat constructor. now exists x.
Qed.

Lemma createCommit_quiet (w : World) (token : jsstring) (owner repo : option jsstring)
    (branch : jsstring) (message : CommitMessageType)
    (fileActions : RepoFilesActionType) :
  Forall quiet (fst (createCommit w token owner repo branch message fileActions)).
Proof.
  rewrite createCommit_trace.
  destruct (snd (build_fileChanges w fileActions)); repeat constructor.
Qed.

(** A run that fails emitted quiet events only. *)
Lemma main_body_throw_quiet (w : World) (tr : list event) (e : thrown) :
  main_body w = (tr, Throw e) -> Forall quiet tr.
Proof.
  unfold main_body. intros H.
  eapply RunFacts.bind_throw_trace;
    [exact H | apply silent_Forall, RunFacts.getInputBranch_silent |].
  clear H tr. intros branch tr H.
  eapply RunFacts.bind_throw_trace;
    [exact H | apply silent_Forall, RunFacts.getInputDeleteFiles_silent |].
  clear H tr. intros deletes tr H.
  eapply RunFacts.bind_throw_trace;
    [exact H | apply silent_Forall, RunFacts.getInputFiles_silent |].
  clear H tr. intros files tr H.
  eapply RunFacts.bind_throw_trace;
    [exact H | apply silent_Forall, RunFacts.getInputCommitMessage_silent |].
  clear H tr. intros message tr H.
  eapply RunFacts.bind_throw_trace;
    [exact H | apply silent_Forall, RunFacts.getInputRepository_silent |].
  clear H tr. intros repo tr H.
  eapply RunFacts.bind_throw_trace;
    [exact H | apply RunFacts.getInputToken_events; intros s; exact I |].
  clear H tr. intros token tr H.
  eapply RunFacts.bind_throw_trace;
    [exact H | apply silent_Forall, RunFacts.checkFilesExist_silent |].
  clear H tr. intros [] tr H.
  eapply RunFacts.bind_throw_trace; [exact H | apply getRepoFiles_quiet |].
  clear H tr. intros repoFilesAction tr H. cbv zeta in H.
  eapply RunFacts.bind_throw_trace; [exact H | apply createCommit_quiet |].
  clear H tr. intros resp tr H.
  cbn beta in H. destruct (data resp); unfold emit, ret in H; discriminate H.
Qed.

(** C10.  When a step of the run throws a value that is not an [Error],
    [main] ends normally with the events of the steps so far: [setFailed]
    is not called and no success line is logged. *)
Theorem main_swallows_non_error (w : World) (tr : list event) (v : jsstring) :
  main_body w = (tr, Throw (ThrowOther v)) ->
  main w = (tr, Ok tt)
  /\ (forall msg, EvSetFailed msg ∉ tr)
  /\ (forall url, EvInfo (js "commit success: " ++ url) ∉ tr).
Proof.
  intros H. split; [|split].
  - unfold main, try_catch. rewrite H. cbn. now rewrite app_nil_r.
  - intros msg Hin. apply main_body_throw_quiet in H.
    rewrite Forall_forall in H. exact (H _ Hin).
  - intros url Hin. apply main_body_throw_quiet in H.
    rewrite Forall_forall in H. destruct (H _ Hin) as [file E]. discriminate E.
Qed.

(** C10 at a transport that rejects with a string. *)
Lemma main_swallows_non_error_sample :
  main (sample_world [(js "files", js "a.txt")] [js "a.txt"] []
          (Throw (ThrowOther (js "socket hang up"))) commit_ok)
  = ([EvSetSecret (js "ghs_sample");
      EvQuery (js "ghs_sample")
        (query_data (Some (js "octocat")) (Some (js "Hello-World")) (js "main")
           (js "_BxvS4qH:file(path:" ++ [QUOTE] ++ js "a.txt" ++ [QUOTE]
              ++ js "){type}"))],
     Ok tt).
Proof.
  apply (main_swallows_non_error
           (sample_world [(js "files", js "a.txt")] [js "a.txt"] []
              (Throw (ThrowOther (js "socket hang up"))) commit_ok)
           _ (js "socket hang up")).
  vm_compute. reflexivity.
Defined.

(** A run that succeeds, for comparison: the same platform with a remote
    that answers. *)
Lemma main_success_sample :
  main (sample_world [(js "files", js "a.txt")] [js "a.txt"] []
          (remote_has []) commit_ok)
  = ([EvSetSecret (js "ghs_sample");
      EvQuery (js "ghs_sample")
        (query_data (Some (js "octocat")) (Some (js "Hello-World")) (js "main")
           (js "_BxvS4qH:file(path:" ++ [QUOTE] ++ js "a.txt" ++ [QUOTE]
              ++ js "){type}"));
      EvMutation (js "ghs_sample") mutation_query
        {| branchName := js "main";
           repositoryNameWithOwner := js "octocat/Hello-World";
           message := {| default_ := None; headline := js "committed files";
                         body := Some (js "created  'a.txt'") |};
           fileChanges :=
             {| additions := Some [{| path := js "a.txt"; contents := Some (js "Zm9v") |}];
                deletions := None |};
           expectedHeadOid := js "7fd1a60b01f91b314f59955a4e4d4e80d8edf11d" |};
      EvInfo (js "commit success: https://github.test/octocat/Hello-World/commit/1")],
     Ok tt).
Proof. vm_compute. reflexivity. Qed.

Lemma checkFilesExist_ok (w : World) (files : list jsstring) (t : list event) :
  checkFilesExist w files = (t, Ok tt) -> Forall (fun p => existsSync w p = true) files.
Proof.
  unfold checkFilesExist. revert t. induction files as [|f files IH]; intros t H.
  - constructor.
  - cbn [for_of] in H. destruct (existsSync w f) eqn:Ef; cbn [negb] in H.
    + rewrite MFacts.bind_ret_l in H. constructor; [exact Ef | eapply IH; exact H].
    + discriminate H.
Qed.

Lemma main_trace (w : World) (e : event) :
  is_request e -> e ∈ fst (main w) -> e ∈ fst (main_body w).
Proof.
  intros He. unfold main, try_catch.
  destruct (main_body w) as [t [[]|[msg|v]]]; cbn; auto.
  - intros [H|H%list_elem_of_singleton]%elem_of_app; [exact H|]. subst e. destruct He.
  - now rewrite app_nil_r.
Qed.

(** C9, seen from the requests: a run sends a request only after the
    create/modify list is resolved and each of its paths is found on
    disk. *)
Lemma main_request_after_gate (w : World) (e : event) :
  is_request e -> e ∈ fst (main w) ->
  exists files,
    snd (getInputFiles w) = Ok files
    /\ Forall (fun p => existsSync w p = true) files.
Proof.
  intros He Hin. apply main_trace in Hin; [|exact He]. unfold main_body in Hin.
  pose proof (RunFacts.getInputBranch_silent w) as Sb.
  pose proof (RunFacts.getInputDeleteFiles_silent w) as Sd.
  pose proof (RunFacts.getInputFiles_silent w) as Sf.
  pose proof (RunFacts.getInputCommitMessage_silent w) as Sm.
  pose proof (RunFacts.getInputRepository_silent w) as Sr.
  pose proof (RunFacts.getInputToken_events w (fun e => ~ is_request e)
                (fun s H => H)) as St.
  destruct (getInputBranch w) as [? [branch|?]]; simpl in Sb; subst;
    [rewrite MFacts.bind_ok in Hin | inversion Hin].
  destruct (getInputDeleteFiles w) as [? [deletes|?]]; simpl in Sd; subst;
    [rewrite MFacts.bind_ok in Hin | inversion Hin].
  destruct (getInputFiles w) as [? [files|?]]; simpl in Sf; subst;
    [rewrite MFacts.bind_ok in Hin | inversion Hin].
  destruct (getInputCommitMessage w) as [? [message|?]]; simpl in Sm; subst;
    [rewrite MFacts.bind_ok in Hin | inversion Hin].
  destruct (getInputRepository w) as [? [repo|?]]; simpl in Sr; subst;
    [rewrite MFacts.bind_ok in Hin | inversion Hin].
  cbn [app fst] in Hin. rewrite Forall_forall in St.
  destruct (getInputToken w) as [tt' [token|?]]; cbn [fst] in St;
    [rewrite MFacts.bind_ok in Hin | now elim (St e Hin)].
  cbn [fst] in Hin. apply elem_of_app in Hin as [Hin|Hin]; [now elim (St e Hin)|].
  exists files. split; [reflexivity|].
  pose proof (RunFacts.checkFilesExist_silent w files) as Sc.
  destruct (checkFilesExist w files) as [tc [[]|?]] eqn:Ec; simpl in Sc; subst tc.
  - eapply checkFilesExist_ok. exact Ec.
  - inversion Hin.
Qed.

(** * Further properties *)

(** ** Strings *)

Module StringFacts.

Lemma split_on_nonempty (sep : N) (s : jsstring) : split_on sep s <> [].
Proof.
  induction s as [|c s IH]; [discriminate|]. cbn [split_on].
  destruct (c =? sep)%N; [discriminate|]. now destruct (split_on sep s).
Qed.

Lemma split_on_app (sep : N) (a b : jsstring) :
  sep ∉ a -> split_on sep (a ++ sep :: b) = a :: split_on sep b.
Proof.
  induction a as [|c a IH]; intros Hn.
  - cbn. now rewrite N.eqb_refl.
  - cbn [app split_on]. destruct (N.eqb_spec c sep) as [->|Hc].
    + exfalso. apply Hn. constructor.
    + rewrite IH; [reflexivity|]. intros H. apply Hn. now constructor.
Qed.

Lemma split_on_head_empty (sep : N) (t : jsstring) :
  t = [] \/ head t = Some sep -> head (split_on sep t) = Some [].
Proof.
  intros [->|H]; [reflexivity|]. destruct t as [|c t]; [discriminate|].
  injection H as ->. cbn. now rewrite N.eqb_refl.
Qed.

Lemma trimStart_decompose (s : jsstring) :
  exists pre, s = pre ++ trimStart s /\ forallb is_ws pre = true.
Proof.
  induction s as [|c s (pre & E & Hpre)]; [now exists []|].
  cbn [trimStart]. destruct (is_ws c) eqn:Hc.
  - exists (c :: pre). split; [cbn; congruence|]. cbn. now rewrite Hc.
  - now exists [].
Qed.

Lemma trimStart_head (s : jsstring) (c : N) (r : jsstring) :
  trimStart s = c :: r -> is_ws c = false.
Proof.
  induction s as [|d s IH]; [discriminate|]. cbn [trimStart].
  destruct (is_ws d) eqn:Hd; [exact IH|]. now intros [= <- _].
Qed.

Lemma trimStart_nil (s : jsstring) : trimStart s = [] <-> forallb is_ws s = true.
Proof.
  induction s as [|c s IH]; [easy|]. cbn [trimStart forallb].
  destruct (is_ws c); cbn; [exact IH | easy].
Qed.

Lemma forallb_rev {A : Type} (f : A -> bool) (l : list A) :
  forallb f (rev l) = forallb f l.
Proof.
  induction l as [|x l IH]; [reflexivity|].
  cbn [rev forallb]. rewrite forallb_app, IH. cbn. now rewrite andb_true_r, andb_comm.
Qed.

(** [trim] leaves nothing exactly of a string of white space. *)
Lemma trim_nil (s : jsstring) : trim s = [] <-> forallb is_ws s = true.
Proof.
  unfold trim, trimEnd. split.
  - intros H. apply (f_equal (@rev N)) in H. rewrite rev_involutive in H. cbn in H.
    apply trimStart_nil in H. rewrite forallb_rev in H.
    destruct (trimStart s) as [|c r] eqn:E; [now apply trimStart_nil|].
    apply trimStart_head in E. cbn in H. now rewrite E in H.
  - intros H. apply trimStart_nil in H. now rewrite H.
Qed.

(** What [trim] leaves starts with a character that is not white space. *)
Lemma trim_head (s : jsstring) (c : N) (r : jsstring) :
  trim s = c :: r -> is_ws c = false.
Proof.
  unfold trim, trimEnd. intros H.
  destruct (trimStart s) as [|c0 t] eqn:E; [discriminate H|].
  pose proof (trimStart_head _ _ _ E) as Hc0.
  destruct (trimStart_decompose (rev (c0 :: t))) as (pre & Ed & Hpre).
  apply (f_equal (@rev N)) in Ed. rewrite rev_involutive, rev_app_distr, H in Ed.
  injection Ed as -> _. exact Hc0.
Qed.

End StringFacts.

(** ** input.ts: repository, message *)

Lemma join_cons2 (sep x y : jsstring) (l : list jsstring) :
  join sep (x :: y :: l) = x ++ sep ++ join sep (y :: l).
Proof. reflexivity. Qed.

Lemma split_on_join2 (owner repo : jsstring) (extra : list jsstring) :
  SLASH ∉ owner -> SLASH ∉ repo ->
  exists rest, split_on SLASH (join [SLASH] (owner :: repo :: extra)) = owner :: repo :: rest.
Proof.
  intros Ho Hr. rewrite join_cons2. cbn [app].
  rewrite StringFacts.split_on_app by exact Ho.
  destruct extra as [|x extra].
  - exists []. cbn [join]. now rewrite split_on_absent.
  - rewrite join_cons2. cbn [app].
    rewrite StringFacts.split_on_app by exact Hr. eauto.
Qed.

Lemma getInputRepository_chosen (w : World) :
  chosen_repository w <> [] ->
  getInputRepository w
  = parse_repository (chosen_repository w)
      (if str_eqb (getInput w (js "repository")) []
       then js "GITHUB_REPOSITORY environment variable could not be interpreted"
       else js "input 'repository' could not be parsed: '" ++ getInput w (js "repository")
              ++ js "'; " ++ js "must be formatted as 'OWNER/REPOSITORY'").
Proof.
  unfold chosen_repository, getInputRepository. intros Hne.
  destruct (str_eqb (getInput w (js "repository")) []) eqn:Ei; cbn [andb negb].
  - apply JsObjectFacts.str_eqb_neq in Hne. now rewrite Hne.
  - reflexivity.
Qed.

(** X1.  A repository string [OWNER/REPOSITORY], taken from the input or,
    when the input is empty, from the environment, is returned as its two
    parts; further segments after a second slash are ignored. *)
Theorem getInputRepository_well_formed (w : World) (own name : jsstring)
    (extra : list jsstring) :
  chosen_repository w = join [SLASH] (own :: name :: extra) ->
  own <> [] -> name <> [] -> SLASH ∉ own -> SLASH ∉ name ->
  getInputRepository w
  = ([], Ok {| owner := Some own; repository := Some name |}).
Proof.
  intros Hc Ho Hr Hso Hsr.
  rewrite getInputRepository_chosen
    by (rewrite Hc, join_cons2; destruct own; [congruence | discriminate]).
  rewrite Hc. unfold parse_repository.
  destruct (split_on_join2 own name extra Hso Hsr) as [rest ->]. cbn.
  rewrite !bool_decide_eq_false_2 by congruence. reflexivity.
Qed.

(** X1 at the input [octocat/Hello-World/tree/main]. *)
Lemma getInputRepository_well_formed_sample :
  getInputRepository
    (sample_world [(js "repository", js "octocat/Hello-World/tree/main")] [] []
       no_answer no_answer)
  = ([], Ok {| owner := Some (js "octocat"); repository := Some (js "Hello-World") |}).
Proof.
  apply (getInputRepository_well_formed
           (sample_world [(js "repository", js "octocat/Hello-World/tree/main")] [] []
              no_answer no_answer)
           (js "octocat") (js "Hello-World") [js "tree"; js "main"]);
    try discriminate; try reflexivity;
    rewrite list_elem_of_In; vm_compute; intuition discriminate.
Defined.

(** X2.  An explicit repository input with a slash whose owner part or
    repository part is empty ([/name], [owner/], [owner//x]) fails, and
    the message quotes the input. *)
Theorem getInputRepository_empty_segment (w : World) (owner tail : jsstring) :
  getInput w (js "repository") = owner ++ SLASH :: tail ->
  SLASH ∉ owner ->
  owner = [] \/ tail = [] \/ head tail = Some SLASH ->
  getInputRepository w
  = ([], Throw (ThrowError
                  (js "input 'repository' could not be parsed: '"
                     ++ getInput w (js "repository")
                     ++ js "'; must be formatted as 'OWNER/REPOSITORY'"))).
Proof.
  intros Hi Hso Hcase.
  assert (Hne : str_eqb (getInput w (js "repository")) [] = false).
  { apply JsObjectFacts.str_eqb_neq. rewrite Hi. now destruct owner. }
  rewrite getInputRepository_chosen; unfold chosen_repository; rewrite Hne;
    [|rewrite Hi; now destruct owner].
  match goal with |- parse_repository _ ?e = _ => set (err := e) end.
  rewrite Hi. unfold parse_repository.
  rewrite StringFacts.split_on_app by exact Hso.
  assert (E : bool_decide ((owner :: split_on SLASH tail) !! 0%nat = Some [])
              || bool_decide ((owner :: split_on SLASH tail) !! 1%nat = Some []) = true).
  { destruct Hcase as [->|Ht].
    - reflexivity.
    - apply orb_true_iff. right. apply bool_decide_eq_true.
      apply StringFacts.split_on_head_empty in Ht.
      cbn. destruct (split_on SLASH tail); [discriminate|]. exact Ht. }
  rewrite E. unfold err. rewrite Hi. reflexivity.
Qed.

(** X2 at the input [octocat/]. *)
Lemma getInputRepository_empty_segment_sample :
  getInputRepository
    (sample_world [(js "repository", js "octocat/")] [] [] no_answer no_answer)
  = ([], Throw (ThrowError
                  (js "input 'repository' could not be parsed: 'octocat/'; "
                     ++ js "must be formatted as 'OWNER/REPOSITORY'"))).
Proof.
  apply (getInputRepository_empty_segment
           (sample_world [(js "repository", js "octocat/")] [] [] no_answer no_answer)
           (js "octocat") []).
  - reflexivity.
  - rewrite list_elem_of_In. vm_compute. intuition discriminate.
  - right. left. reflexivity.
Defined.

Lemma consume_blank_from (lines : list jsstring) :
  forall i,
    consume_blank lines i = drop (blank_prefix (evens (drop i lines))) lines.
Proof.
  induction lines as [|l0 shifted IH]; intros i.
  - now rewrite drop_nil.
  - cbn [consume_blank]. destruct ((l0 :: shifted) !! i) as [line|] eqn:El.
    + apply drop_S in El as Ed. rewrite Ed. cbn [evens blank_prefix]. fold (blank line).
      destruct (blank line); [|reflexivity].
      rewrite IH. cbn [drop]. do 3 f_equal.
      assert (E : drop (S i) shifted = drop 1 (drop i shifted))
        by (rewrite drop_drop; f_equal; lia).
      rewrite E. now destruct (drop i shifted).
    + apply lookup_ge_None in El. rewrite (drop_ge _ i) by exact El. reflexivity.
Qed.

(** X3.  The loop meant to drop the leading blank lines tests the lines at
    the positions 0, 2, 4, ... only, and removes one line from the front
    for each of them that is blank, until one is not. *)
Theorem consume_blank_even_positions (lines : list jsstring) :
  consume_blank lines 0 = drop (blank_prefix (evens lines)) lines.
Proof. now rewrite consume_blank_from, drop_0. Qed.

Lemma inline_lines (m : jsstring) :
  forallb is_ws m = false ->
  exists first rest,
    split_on LF (trim m) = first :: rest
    /\ trim first <> []
    /\ consume_blank (first :: rest) 0 = first :: rest.
Proof.
  intros Hm. destruct (trim m) as [|c r] eqn:Et.
  - apply StringFacts.trim_nil in Et. congruence.
  - apply StringFacts.trim_head in Et as Hc.
    assert (Hlf : (c =? LF)%N = false).
    { destruct (N.eqb_spec c LF) as [->|]; [discriminate Hc | reflexivity]. }
    cbn [split_on]. rewrite Hlf.
    destruct (split_on LF r) as [|seg segs] eqn:Es;
      [now apply StringFacts.split_on_nonempty in Es|].
    exists (c :: seg), segs. cbn [cons_seg].
    assert (Hne : trim (c :: seg) <> []).
    { intros H. apply StringFacts.trim_nil in H. cbn in H. now rewrite Hc in H. }
    repeat split; auto. cbn. unfold str_eqb.
    now rewrite bool_decide_eq_false_2 by exact Hne.
Qed.

(** X4.  An inline message that is not all white space resolves to the
    first line of its trimmed text as the headline, which is never empty,
    and the further lines as the body; no line is lost. *)
Theorem getInputCommitMessage_inline (w : World) :
  getInput w (js "message_file") = [] ->
  forallb is_ws (getInput w (js "message")) = false ->
  exists first rest,
    split_on LF (trim (getInput w (js "message"))) = first :: rest
    /\ trim first <> []
    /\ getInputCommitMessage w
       = ([], Ok {| default_ := None;
                    headline := trim first;
                    body := if negb (str_eqb (trim (join [LF] rest)) [])
                            then Some (trim (join [LF] rest)) else None |}).
Proof.
  intros Hf Hm. destruct (inline_lines _ Hm) as (first & rest & Es & Hne & Hc).
  exists first, rest. split; [exact Es|]. split; [exact Hne|].
  unfold getInputCommitMessage. rewrite Hf.
  assert (Hm' : str_eqb (getInput w (js "message")) [] = false).
  { apply JsObjectFacts.str_eqb_neq. intros E. now rewrite E in Hm. }
  rewrite Hm'. change (str_eqb [] []) with true. cbn [andb negb].
  unfold message_of_lines. rewrite Es, Hc. reflexivity.
Qed.

(** X4 at a message with a blank line in front and a body. *)
Lemma getInputCommitMessage_inline_witness :
  exists first rest,
    split_on LF (trim ([LF] ++ js "Fix typo" ++ [LF; LF] ++ js "See #12" ++ [LF]))
    = first :: rest
    /\ trim first <> []
    /\ getInputCommitMessage
         (sample_world
            [(js "message", [LF] ++ js "Fix typo" ++ [LF; LF] ++ js "See #12" ++ [LF])]
            [] [] no_answer no_answer)
       = ([], Ok {| default_ := None;
                    headline := trim first;
                    body := if negb (str_eqb (trim (join [LF] rest)) [])
                            then Some (trim (join [LF] rest)) else None |}).
Proof.
  apply (getInputCommitMessage_inline
           (sample_world
              [(js "message", [LF] ++ js "Fix typo" ++ [LF; LF] ++ js "See #12" ++ [LF])]
              [] [] no_answer no_answer)); vm_compute; reflexivity.
Defined.



(** ** input.ts: the file lists *)

Lemma expand_lines_from (w : World) (what : jsstring) (lines : list jsstring) :
  (forall line, line ∈ lines -> exists g, globSync w line = Ok g /\ g <> []) ->
  forall out,
    foldM
      (fun out line =>
         checkGlob <- lift (globSync w line) ;;
         if Nat.eqb (length checkGlob) 0 then
           throwError (js "no input '" ++ what ++ js "' found: " ++ line)
         else if Nat.eqb (length checkGlob) 1 then ret (out ++ [line])
         else ret (out ++ checkGlob))
      lines out
    = ([], Ok (out ++ flat_map (contribution w) lines)).
Proof.
  induction lines as [|line lines IH]; intros Hall out.
  - cbn. now rewrite app_nil_r.
  - destruct (Hall line) as (g & Eg & Hg); [constructor|].
    cbn [foldM flat_map]. unfold contribution at 1. rewrite Eg.
    change (lift (Ok g)) with (ret g). rewrite MFacts.bind_ret_l.
    destruct g as [|g0 g]; [congruence|]. cbn [length Nat.eqb].
    destruct (Nat.eqb (length g) 0);
      rewrite MFacts.bind_ret_l, IH by (intros l Hl; apply Hall; now constructor);
      now rewrite <- app_assoc.
Qed.

Lemma expand_lines_ok (w : World) (what : jsstring) (lines : list jsstring) :
  (forall line, line ∈ lines -> exists g, globSync w line = Ok g /\ g <> []) ->
  expand_lines w what lines = ([], Ok (flat_map (contribution w) lines)).
Proof. intros H. unfold expand_lines. now rewrite expand_lines_from. Qed.

Lemma expand_lines_no_match (w : World) (what : jsstring)
    (pre : list jsstring) (line : jsstring) (post : list jsstring) :
  (forall l, l ∈ pre -> exists g, globSync w l = Ok g /\ g <> []) ->
  globSync w line = Ok [] ->
  expand_lines w what (pre ++ line :: post)
  = ([], Throw (ThrowError (js "no input '" ++ what ++ js "' found: " ++ line))).
Proof.
  intros Hpre Hline. unfold expand_lines.
  match goal with |- foldM ?f _ _ = ?r => set (step := f); set (res := r) end.
  enough (H : forall out, foldM step (pre ++ line :: post) out = res) by apply H.
  induction pre as [|l pre IH]; intros out.
  - cbn [app foldM]. unfold step at 1. rewrite Hline. reflexivity.
  - destruct (Hpre l) as (g & Eg & Hg); [constructor|].
    cbn [app foldM]. unfold step at 1. rewrite Eg.
    change (lift (Ok g)) with (ret g). rewrite MFacts.bind_ret_l.
    destruct g as [|g0 g]; [congruence|]. cbn [length Nat.eqb].
    destruct (Nat.eqb (length g) 0);
      rewrite MFacts.bind_ret_l; apply IH; intros l' Hl; apply Hpre; now constructor.
Qed.

Lemma contribution_nonempty (w : World) (line : jsstring) (g : list jsstring) :
  globSync w line = Ok g -> g <> [] -> contribution w line <> [].
Proof.
  intros Eg Hg. unfold contribution. rewrite Eg.
  destruct (Nat.eqb (length g) 1); [discriminate | exact Hg].
Qed.

(** X6.  When each non-blank line of [files] has a match, [getInputFiles]
    returns, in the order of the lines, the line itself where the matcher
    finds one path, and the paths found where it finds several; the list
    is not empty. *)
Theorem getInputFiles_expansion (w : World) :
  getInput w (js "files") <> [] ->
  List.filter nonblank (split_on LF (getInput w (js "files"))) <> [] ->
  (forall line,
      line ∈ List.filter nonblank (split_on LF (getInput w (js "files"))) ->
      exists g, globSync w line = Ok g /\ g <> []) ->
  getInputFiles w
  = ([], Ok (flat_map (contribution w)
               (List.filter nonblank (split_on LF (getInput w (js "files"))))))
  /\ flat_map (contribution w)
       (List.filter nonblank (split_on LF (getInput w (js "files")))) <> [].
Proof.
  intros Hraw Hlines Hall.
  assert (Hne : flat_map (contribution w)
                  (List.filter nonblank (split_on LF (getInput w (js "files")))) <> []).
  { destruct (List.filter nonblank (split_on LF (getInput w (js "files"))))
      as [|line lines]; [congruence|].
    destruct (Hall line) as (g & Eg & Hg); [constructor|].
    cbn [flat_map]. pose proof (contribution_nonempty w line g Eg Hg).
    now destruct (contribution w line). }
  split; [|exact Hne].
  unfold getInputFiles, getInput_required.
  apply JsObjectFacts.str_eqb_neq in Hraw. rewrite Hraw, MFacts.bind_ret_l.
  rewrite expand_lines_ok by exact Hall. rewrite MFacts.bind_ok. cbn [fst snd app].
  destruct (flat_map _ _); [congruence | reflexivity].
Qed.

(** X6 at a pattern with one match and a pattern with two. *)
Lemma getInputFiles_expansion_sample :
  getInputFiles
    (with_glob
       (fun p => Ok (if bool_decide (p = js "docs/*.md")
                     then [js "docs/a.md"; js "docs/b.md"] else [js "README.md"]))
       (sample_world [(js "files", js "*.md" ++ [LF; LF] ++ js "docs/*.md")] [] []
          no_answer no_answer))
  = ([], Ok [js "*.md"; js "docs/a.md"; js "docs/b.md"]).
Proof.
  apply (proj1 (getInputFiles_expansion
                  (with_glob
                     (fun p => Ok (if bool_decide (p = js "docs/*.md")
                                   then [js "docs/a.md"; js "docs/b.md"]
                                   else [js "README.md"]))
                     (sample_world [(js "files", js "*.md" ++ [LF; LF] ++ js "docs/*.md")]
                        [] [] no_answer no_answer))
                  ltac:(discriminate) ltac:(discriminate)
                  ltac:(intros line _; cbn [with_glob globSync];
                        eexists; split; [reflexivity | case_bool_decide; discriminate]))).
Defined.

(** X7.  The first non-blank line of [files] without a match ends
    [getInputFiles] with [no input 'file' found: <line>]. *)
Theorem getInputFiles_no_match (w : World) (pre : list jsstring) (line : jsstring)
    (post : list jsstring) :
  getInput w (js "files") <> [] ->
  List.filter nonblank (split_on LF (getInput w (js "files"))) = pre ++ line :: post ->
  (forall l, l ∈ pre -> exists g, globSync w l = Ok g /\ g <> []) ->
  globSync w line = Ok [] ->
  getInputFiles w
  = ([], Throw (ThrowError (js "no input 'file' found: " ++ line))).
Proof.
  intros Hraw Hlines Hpre Hline. unfold getInputFiles, getInput_required.
  apply JsObjectFacts.str_eqb_neq in Hraw. rewrite Hraw, MFacts.bind_ret_l.
  rewrite Hlines, (expand_lines_no_match w _ pre line post Hpre Hline). reflexivity.
Qed.

(** X7 at a second line that names no file. *)
Lemma getInputFiles_no_match_sample :
  getInputFiles
    (sample_world [(js "files", js "a.txt" ++ [LF] ++ js "b.txt")] [js "a.txt"] []
       no_answer no_answer)
  = ([], Throw (ThrowError (js "no input 'file' found: b.txt"))).
Proof.
  apply (getInputFiles_no_match
           (sample_world [(js "files", js "a.txt" ++ [LF] ++ js "b.txt")] [js "a.txt"] []
              no_answer no_answer)
           [js "a.txt"] (js "b.txt") []).
  - discriminate.
  - vm_compute. reflexivity.
  - intros l ->%list_elem_of_singleton. eexists. split; [vm_compute; reflexivity|].
    discriminate.
  - vm_compute. reflexivity.
Defined.

(** X8.  [getInputDeleteFiles] returns the empty list exactly when the
    input [delete_files] is empty. *)
Theorem getInputDeleteFiles_empty_iff (w : World) :
  snd (getInputDeleteFiles w) = Ok [] <-> getInput w (js "delete_files") = [].
Proof.
  unfold getInputDeleteFiles. split.
  - destruct (str_eqb (getInput w (js "delete_files")) []) eqn:E.
    + intros _. now apply JsObjectFacts.str_eqb_eq.
    + destruct (expand_lines w _ _) as [t [out|e]]; [|discriminate].
      rewrite MFacts.bind_ok. destruct out as [|x out]; cbn; discriminate.
  - intros ->. reflexivity.
Qed.

Lemma checkFilesExist_all (w : World) (files : list jsstring) :
  Forall (fun p => existsSync w p = true) files -> checkFilesExist w files = ([], Ok tt).
Proof.
  unfold checkFilesExist. induction 1 as [|f files Hf _ IH]; [reflexivity|].
  cbn [for_of]. rewrite Hf. cbn [negb]. now rewrite MFacts.bind_ret_l.
Qed.

(** X9.  [checkFilesExist] passes, without an event, exactly when every
    path of the list is found on disk. *)
Theorem checkFilesExist_passes_iff (w : World) (files : list jsstring) :
  checkFilesExist w files = ([], Ok tt)
  <-> Forall (fun p => existsSync w p = true) files.
Proof. split; [apply checkFilesExist_ok | apply checkFilesExist_all]. Qed.

(** ** getRepoFiles: the request and the notices *)

Lemma classify_delete_run (request : RepoFilesQueryResponseType)
    (o : JsObject.t jsstring) :
  classify_delete request o
  = (map notice
       (List.filter (fun f => loose_eq_null (file_result request o f)) (JsObject.keys o)),
     Ok (List.filter (fun f => loose_ne_null (file_result request o f)) (JsObject.keys o))).
Proof.
  unfold classify_delete.
  match goal with |- foldM ?f _ _ = _ => set (step := f) end.
  enough (H : forall l d,
             foldM step l d
             = (map notice (List.filter (fun f => loose_eq_null (file_result request o f)) l),
                Ok (d ++ List.filter (fun f => loose_ne_null (file_result request o f)) l)))
    by apply (H _ []).
  induction l as [|f l IH]; intros d; cbn [foldM List.filter map].
  - now rewrite app_nil_r.
  - unfold step at 1.
    destruct (file_result request o f) as [[ty|]|]; cbn [loose_ne_null loose_eq_null];
      cbn [emit ret bind]; rewrite IH; cbn [app map]; rewrite <- ?app_assoc; reflexivity.
Qed.

Lemma filter_keys_alias (request : RepoFilesQueryResponseType) (g : option (option jsstring) -> bool)
    (files : list jsstring) :
  List.filter (fun f => g (file_result request (input_files files) f))
    (JsObject.keys (input_files files))
  = List.filter (fun f => g (target request !! alias f)) (JsObject.keys (input_files files)).
Proof.
  apply filter_ext_in. intros f Hf%list_elem_of_In.
  now rewrite RepoFilesFacts.file_result_alias.
Qed.

(** The whole of a run of [getRepoFiles], on the answer of the transport. *)
Lemma getRepoFiles_run (w : World) (token : jsstring) (owner repo : option jsstring)
    (branch : jsstring) (files deletes : list jsstring) :
  getRepoFiles w token owner repo branch files deletes
  = match requestQuery w token (repo_files_query owner repo branch files deletes) with
    | Ok request =>
        (EvQuery token (repo_files_query owner repo branch files deletes)
           :: map notice
                (List.filter (fun f => loose_eq_null (target request !! alias f))
                   (JsObject.keys (input_files deletes))),
         Ok {| createFiles :=
                 nonempty_or_undefined
                   (List.filter (fun f => loose_eq_null (target request !! alias f))
                      (JsObject.keys (input_files files)));
               modifyFiles :=
                 nonempty_or_undefined
                   (List.filter (fun f => loose_ne_null (target request !! alias f))
                      (JsObject.keys (input_files files)));
               deleteFiles :=
                 nonempty_or_undefined
                   (List.filter (fun f => loose_ne_null (target request !! alias f))
                      (JsObject.keys (input_files deletes))) |})
    | Throw e => ([EvQuery token (repo_files_query owner repo branch files deletes)], Throw e)
    end.
Proof.
  unfold getRepoFiles. fold (repo_files_query owner repo branch files deletes).
  destruct (requestQuery w token (repo_files_query owner repo branch files deletes))
    as [request|e]; [|reflexivity].
  cbn [emit lift bind app]. rewrite RepoFilesFacts.classify_create_modify_spec.
  rewrite !filter_keys_alias.
  destruct deletes as [|d0 deletes].
  - reflexivity.
  - cbn [length Nat.eqb negb]. rewrite classify_delete_run, !filter_keys_alias.
    cbn [bind ret app]. now rewrite app_nil_r.
Qed.

Lemma notice_inj (f f' : jsstring) : notice f = notice f' -> f = f'.
Proof.
  unfold notice. intros [= E]. now apply app_inv_tail in E.
Qed.

Lemma loose_null_cases (v : option (option jsstring)) :
  loose_eq_null v = negb (loose_ne_null v).
Proof. now destruct v as [[?|]|]. Qed.

(** X10.  Every create/modify candidate lands in [createFiles] or in
    [modifyFiles], except a path named [__proto__], which lands in none:
    the assignment to the dictionary does not store it.  A path of
    [deleteFiles] is a delete candidate. *)
Theorem getRepoFiles_partition (w : World) (token : jsstring)
    (owner repo : option jsstring) (branch : jsstring)
    (files deletes : list jsstring) (tr : list event) (r : RepoFilesActionType) :
  getRepoFiles w token owner repo branch files deletes = (tr, Ok r) ->
  (forall p, p ∈ bucket (createFiles r) \/ p ∈ bucket (modifyFiles r)
             <-> p ∈ files /\ p <> js "__proto__")
  /\ (forall p, p ∈ bucket (deleteFiles r) -> p ∈ deletes /\ p <> js "__proto__").
Proof.
  intros H. apply RepoFilesFacts.getRepoFiles_ok in H as [request ->].
  cbn [createFiles modifyFiles deleteFiles].
  rewrite !RepoFilesFacts.bucket_nonempty_or_undefined. split.
  - intros p. rewrite !elem_of_filter_keys, loose_null_cases. unfold tracked.
    destruct (loose_ne_null (target request !! alias p)); cbn; intuition congruence.
  - intros p [Ht _]%elem_of_filter_keys. exact Ht.
Qed.

(** X10 at the candidates [__proto__] and [a.txt]. *)
Lemma getRepoFiles_partition_sample :
  (forall p, p ∈ [js "a.txt"] \/ p ∈ [] <-> p ∈ [js "__proto__"; js "a.txt"] /\ p <> js "__proto__")
  /\ (forall p, p ∈ [] -> p ∈ [] /\ p <> js "__proto__").
Proof.
  pose (world := sample_world [] [js "a.txt"; js "__proto__"] [] (remote_has []) commit_ok).
  pose (run := getRepoFiles world (js "ghs_sample") (Some (js "octocat"))
                 (Some (js "Hello-World")) (js "main") [js "__proto__"; js "a.txt"] []).
  assert (H : run = (fst run,
                     Ok {| createFiles := Some [js "a.txt"];
                           modifyFiles := None; deleteFiles := None |}))
    by (vm_compute; reflexivity).
  exact (getRepoFiles_partition _ _ _ _ _ _ _ _ _ H).
Defined.

Lemma getRepoFiles_trace (w : World) (token : jsstring) (owner repo : option jsstring)
    (branch : jsstring) (files deletes : list jsstring) :
  exists notices,
    fst (getRepoFiles w token owner repo branch files deletes)
    = EvQuery token (repo_files_query owner repo branch files deletes) :: notices
    /\ Forall (fun e => exists f, e = notice f) notices.
Proof.
  rewrite getRepoFiles_run.
  destruct (requestQuery w token _) as [request|e]; cbn [fst].
  - eexists. split; [reflexivity|]. apply Forall_forall. intros e He.
    apply list_elem_of_fmap in He as (f & -> & Hf). eauto.
  - exists []. split; [reflexivity | constructor].
Qed.

(** X11.  [getRepoFiles] sends one request, first, whatever the number of
    paths; what follows is notices about delete candidates.  When the
    transport fails, that failure is the outcome. *)
Theorem getRepoFiles_one_query (w : World) (token : jsstring)
    (owner repo : option jsstring) (branch : jsstring) (files deletes : list jsstring) :
  (exists notices,
      fst (getRepoFiles w token owner repo branch files deletes)
      = EvQuery token (repo_files_query owner repo branch files deletes) :: notices
      /\ Forall (fun e => exists f, f ∈ deletes /\ e = notice f) notices)
  /\ (forall e,
         requestQuery w token (repo_files_query owner repo branch files deletes) = Throw e ->
         getRepoFiles w token owner repo branch files deletes
         = ([EvQuery token (repo_files_query owner repo branch files deletes)], Throw e)).
Proof.
  rewrite getRepoFiles_run. split.
  - destruct (requestQuery w token _) as [request|e]; cbn [fst].
    + eexists. split; [reflexivity|]. apply Forall_forall. intros e He.
      apply list_elem_of_fmap in He as (f & -> & Hf).
      apply elem_of_filter_keys in Hf as [[Hf _] _]. eauto.
    + exists []. split; [reflexivity | constructor].
  - intros e ->. reflexivity.
Qed.

(** X12.  A delete candidate, [__proto__] apart, is either returned in
    [deleteFiles] or reported by a notice as not found on the remote, and
    never both. *)
Theorem getRepoFiles_delete_or_notice (w : World) (token : jsstring)
    (owner repo : option jsstring) (branch : jsstring)
    (files deletes : list jsstring) (tr : list event) (r : RepoFilesActionType)
    (p : jsstring) :
  getRepoFiles w token owner repo branch files deletes = (tr, Ok r) ->
  p ∈ deletes -> p <> js "__proto__" ->
  (p ∈ bucket (deleteFiles r) /\ (notice p ∉ tr))
  \/ ((p ∉ bucket (deleteFiles r)) /\ notice p ∈ tr).
Proof.
  rewrite getRepoFiles_run.
  destruct (requestQuery w token _) as [request|e]; [|discriminate].
  intros [= <- <-] Hp Hproto. cbn [deleteFiles].
  rewrite RepoFilesFacts.bucket_nonempty_or_undefined.
  assert (Hn : notice p ∈ EvQuery token (repo_files_query owner repo branch files deletes)
                           :: map notice (List.filter (fun f => loose_eq_null (target request !! alias f))
                                            (JsObject.keys (input_files deletes)))
                         <-> loose_eq_null (target request !! alias p) = true).
  { rewrite elem_of_cons. split.
    - intros [E|Hin]; [discriminate E|].
      apply list_elem_of_fmap in Hin as (f & E & Hf). apply notice_inj in E. subst f.
      now apply elem_of_filter_keys in Hf as [_ Hf].
    - intros He. right. apply list_elem_of_fmap. exists p. split; [reflexivity|].
      apply elem_of_filter_keys. now repeat split. }
  rewrite Hn, elem_of_filter_keys, loose_null_cases. unfold tracked.
  destruct (loose_ne_null (target request !! alias p)); cbn; [left | right];
    intuition congruence.
Qed.

(** X12 at a delete candidate that the remote does not have. *)
Lemma getRepoFiles_delete_or_notice_sample :
  (js "gone.txt" ∈ [js "old.txt"]
   /\ (notice (js "gone.txt")
        ∉ [EvQuery (js "ghs_sample")
             (repo_files_query (Some (js "octocat")) (Some (js "Hello-World")) (js "main")
                [js "a.txt"] [js "old.txt"; js "gone.txt"]);
           notice (js "gone.txt")]))
  \/ ((js "gone.txt" ∉ [js "old.txt"])
      /\ notice (js "gone.txt")
           ∈ [EvQuery (js "ghs_sample")
                (repo_files_query (Some (js "octocat")) (Some (js "Hello-World")) (js "main")
                   [js "a.txt"] [js "old.txt"; js "gone.txt"]);
              notice (js "gone.txt")]).
Proof.
  apply (getRepoFiles_delete_or_notice
           (sample_world [] [js "a.txt"] [] (remote_has [js "a.txt"; js "old.txt"]) commit_ok)
           (js "ghs_sample") (Some (js "octocat")) (Some (js "Hello-World")) (js "main")
           [js "a.txt"] [js "old.txt"; js "gone.txt"] _
           {| createFiles := None; modifyFiles := Some [js "a.txt"];
              deleteFiles := Some [js "old.txt"] |} (js "gone.txt")).
  - vm_compute. reflexivity.
  - right. constructor.
  - discriminate.
Defined.

(** ** createCommit: reading the files *)

Lemma read_all_app (w : World) (a b : list jsstring) :
  read_all w (a ++ b)
  = match read_all w a with
    | Ok la => match read_all w b with
               | Ok lb => Ok (la ++ lb)
               | Throw e => Throw e
               end
    | Throw e => Throw e
    end.
Proof.
  induction a as [|f a IH]; cbn [app read_all].
  - now destruct (read_all w b).
  - destruct (readFileSync_base64 w f); [|reflexivity]. rewrite IH.
    destruct (read_all w a); [|reflexivity]. now destruct (read_all w b).
Qed.

Lemma read_all_ok (w : World) (files : list jsstring) (l : list CommitFileChangeType) :
  read_all w files = Ok l -> Forall2 (addition_of w) files l.
Proof.
  revert l. induction files as [|f files IH]; intros l; cbn [read_all].
  - intros [= <-]. constructor.
  - destruct (readFileSync_base64 w f) as [c|] eqn:Ec; [|discriminate].
    destruct (read_all w files) as [l'|]; [|discriminate]. intros [= <-].
    constructor; [|now apply IH]. split; [reflexivity|]. eauto.
Qed.


Lemma add_files_run (w : World) (files : list jsstring) (fc : CommitFileChangesType)
    (a : list CommitFileChangeType) :
  additions fc = Some a ->
  add_files w (Some files) fc
  = ([], match read_all w files with
         | Ok l => Ok {| additions := Some (a ++ l); deletions := deletions fc |}
         | Throw e => Throw e
         end).
Proof.
  cbn [add_files]. revert fc a. induction files as [|f files IH]; intros fc a Ha.
  - cbn. rewrite app_nil_r. destruct fc. cbn in Ha. now subst.
  - cbn [foldM read_all]. destruct (readFileSync_base64 w f) as [c|e] eqn:Ec;
      [|reflexivity].
    change (lift (Ok c)) with (ret c). rewrite MFacts.bind_ret_l.
    unfold push_addition. rewrite Ha. rewrite MFacts.bind_ret_l.
    rewrite (IH _ (a ++ [{| path := f; contents := Some c |}])) by reflexivity.
    cbn [deletions]. destruct (read_all w files); [|reflexivity].
    now rewrite <- app_assoc.
Qed.

Lemma push_deletions_run (files : list jsstring) (fc : CommitFileChangesType)
    (d : list CommitFileChangeType) :
  deletions fc = Some d ->
  foldM (fun fc file => push_deletion fc {| path := file; contents := None |}) files fc
  = ([], Ok {| additions := additions fc;
               deletions := Some (d ++ map (fun f => {| path := f; contents := None |})
                                       files) |}).
Proof.
  revert fc d. induction files as [|f files IH]; intros fc d Hd.
  - cbn. rewrite app_nil_r. destruct fc. cbn in Hd. now subst.
  - cbn [foldM map]. unfold push_deletion at 1. rewrite Hd, MFacts.bind_ret_l.
    rewrite (IH _ (d ++ [{| path := f; contents := None |}])) by reflexivity.
    cbn [additions]. now rewrite <- app_assoc.
Qed.

Lemma add_files_none (w : World) (fc : CommitFileChangesType) :
  add_files w None fc = ret fc.
Proof. reflexivity. Qed.

Lemma bind_unit {A B : Type} (a : A) (k : A -> M B) : bind ([], Ok a) k = k a.
Proof. exact (MFacts.bind_ret_l a k). Qed.

(** The whole of [build_fileChanges]. *)
Lemma build_fileChanges_run (w : World) (fileActions : RepoFilesActionType) :
  build_fileChanges w fileActions
  = ([], match read_all w (bucket (createFiles fileActions)
                             ++ bucket (modifyFiles fileActions)) with
         | Ok l =>
             Ok {| additions :=
                     if bool_decide (createFiles fileActions <> None)
                        || bool_decide (modifyFiles fileActions <> None)
                     then Some l else None;
                   deletions :=
                     option_map (map (fun f => {| path := f; contents := None |}))
                       (deleteFiles fileActions) |}
         | Throw e => Throw e
         end).
Proof.
  unfold build_fileChanges. rewrite read_all_app.
  destruct fileActions as [[c|] [m|] d];
    cbn [createFiles modifyFiles deleteFiles bucket default from_option id];
    cbn [bool_decide orb]; rewrite ?bool_decide_eq_true_2 by discriminate;
    rewrite ?bool_decide_eq_false_2 by (intros H; now apply H); cbn [orb].
  - rewrite (add_files_run w c _ []) by reflexivity. cbn [app].
    destruct (read_all w c) as [lc|e]; [|reflexivity]. rewrite bind_unit.
    rewrite (add_files_run w m _ lc) by reflexivity. cbn [deletions].
    destruct (read_all w m) as [lm|e]; [|reflexivity]. rewrite bind_unit.
    cbn [additions]. destruct d as [d|]; [|reflexivity].
    now rewrite (push_deletions_run d _ []) by reflexivity.
  - rewrite (add_files_run w c _ []) by reflexivity. cbn [app read_all].
    destruct (read_all w c) as [lc|e]; [|reflexivity]. rewrite bind_unit.
    rewrite add_files_none, MFacts.bind_ret_l, app_nil_r.
    cbn [additions]. destruct d as [d|]; [|reflexivity].
    now rewrite (push_deletions_run d _ []) by reflexivity.
  - cbn [read_all]. rewrite add_files_none, MFacts.bind_ret_l.
    rewrite (add_files_run w m _ []) by reflexivity. cbn [deletions app].
    destruct (read_all w m) as [lm|e]; [|reflexivity]. rewrite bind_unit.
    cbn [additions]. destruct d as [d|]; [|reflexivity].
    now rewrite (push_deletions_run d _ []) by reflexivity.
  - cbn [read_all app].
    rewrite add_files_none, MFacts.bind_ret_l, add_files_none, MFacts.bind_ret_l.
    cbn [additions]. destruct d as [d|]; [|reflexivity].
    now rewrite (push_deletions_run d _ []) by reflexivity.
Qed.

(** X13.  In the request of [createCommit], [additions] lists the paths
    of [createFiles] and then those of [modifyFiles], in their order, each
    with the content read from that path; [deletions] lists the paths of
    [deleteFiles], without content. *)
Theorem createCommit_file_changes (w : World) (token : jsstring)
    (owner repo : option jsstring) (branch : jsstring) (message : CommitMessageType)
    (fileActions : RepoFilesActionType)
    (tok q : jsstring) (input : CreateCommitInputType) :
  EvMutation tok q input
    ∈ fst (createCommit w token owner repo branch message fileActions) ->
  Forall2 (addition_of w)
    (bucket (createFiles fileActions) ++ bucket (modifyFiles fileActions))
    (default [] (additions (fileChanges input)))
  /\ default [] (deletions (fileChanges input))
     = map (fun f => {| path := f; contents := None |}) (bucket (deleteFiles fileActions)).
Proof.
  rewrite createCommit_trace, build_fileChanges_run. cbn [snd].
  destruct (read_all w _) as [l|e] eqn:El; [|intros H; inversion H].
  intros H. apply list_elem_of_singleton in H. injection H as _ _ ->.
  cbn [commit_input fileChanges additions deletions]. split.
  - apply read_all_ok in El.
    destruct (createFiles fileActions) as [c|], (modifyFiles fileActions) as [m|];
      cbn [bool_decide orb]; rewrite ?bool_decide_eq_true_2 by discriminate;
      cbn [orb default from_option id]; try exact El.
    cbn in El. inversion El. constructor.
  - now destruct (deleteFiles fileActions).
Qed.

(** X13 at one path in each bucket. *)
Lemma createCommit_file_changes_sample :
  Forall2
    (addition_of
       (sample_world [] [js "new.txt"; js "a.txt"] [] (remote_has []) commit_ok))
    ([js "new.txt"] ++ [js "a.txt"])
    [{| path := js "new.txt"; contents := Some (js "Zm9v") |};
     {| path := js "a.txt"; contents := Some (js "Zm9v") |}]
  /\ [{| path := js "old.txt"; contents := None |}]
     = map (fun f => {| path := f; contents := None |}) [js "old.txt"].
Proof.
  pose (world := sample_world [] [js "new.txt"; js "a.txt"] [] (remote_has []) commit_ok).
  pose (msg := {| default_ := None; headline := js "Update"; body := None |}).
  apply (createCommit_file_changes world (js "ghs_sample") (Some (js "octocat"))
           (Some (js "Hello-World")) (js "main") msg
           {| createFiles := Some [js "new.txt"]; modifyFiles := Some [js "a.txt"];
              deleteFiles := Some [js "old.txt"] |}
           (js "ghs_sample") mutation_query
           (commit_input world (Some (js "octocat")) (Some (js "Hello-World"))
              (js "main") msg
              {| additions := Some [{| path := js "new.txt"; contents := Some (js "Zm9v") |};
                                    {| path := js "a.txt"; contents := Some (js "Zm9v") |}];
                 deletions := Some [{| path := js "old.txt"; contents := None |}] |})).
  vm_compute. apply list_elem_of_singleton. reflexivity.
Defined.



(** ** main: the order of the events *)

Lemma getInputToken_throw (w : World) (e : thrown) :
  snd (getInputToken w) = Throw e -> fst (getInputToken w) = [].
Proof.
  unfold getInputToken. repeat case_if; cbn; try discriminate; reflexivity.
Qed.

(** With the configuration resolved and the files found, the run is the
    secret registration followed by the rest of the block. *)
Lemma main_body_after_gate (w : World) (c : Resolved) :
  resolves w c ->
  Forall (fun p => existsSync w p = true) (r_files c) ->
  main_body w
  = bind ([EvSetSecret (r_token c)], Ok tt)
      (fun _ => after_gate w (r_branch c) (r_deletes c) (r_files c) (r_message c)
                  (r_repository c) (r_token c)).
Proof.
  intros (Hb & Hd & Hf & Hm & Hr & Ht) Hex.
  assert (Eb : getInputBranch w = ([], Ok (r_branch c))).
  { pose proof (RunFacts.getInputBranch_silent w).
    destruct (getInputBranch w); cbn in *; congruence. }
  assert (Ed : getInputDeleteFiles w = ([], Ok (r_deletes c))).
  { pose proof (RunFacts.getInputDeleteFiles_silent w).
    destruct (getInputDeleteFiles w); cbn in *; congruence. }
  assert (Ef : getInputFiles w = ([], Ok (r_files c))).
  { pose proof (RunFacts.getInputFiles_silent w).
    destruct (getInputFiles w); cbn in *; congruence. }
  assert (Em : getInputCommitMessage w = ([], Ok (r_message c))).
  { pose proof (RunFacts.getInputCommitMessage_silent w).
    destruct (getInputCommitMessage w); cbn in *; congruence. }
  assert (Er : getInputRepository w = ([], Ok (r_repository c))).
  { pose proof (RunFacts.getInputRepository_silent w).
    destruct (getInputRepository w); cbn in *; congruence. }
  apply RunFacts.getInputToken_trace in Ht.
  apply checkFilesExist_all in Hex.
  unfold main_body.
  rewrite Eb, bind_unit, Ed, bind_unit, Ef, bind_unit, Em, bind_unit, Er, bind_unit, Ht.
  rewrite !(MFacts.bind_ok [EvSetSecret (r_token c)]).
  rewrite Hex, bind_unit. reflexivity.
Qed.

Lemma main_run (w : World) :
  main w
  = (fst (main_body w)
       ++ match snd (main_body w) with
          | Throw (ThrowError msg) => [EvSetFailed msg]
          | _ => []
          end,
     Ok tt).
Proof.
  unfold main, try_catch. destruct (main_body w) as [t [[]|[msg|v]]]; cbn;
    rewrite ?app_nil_r; reflexivity.
Qed.

(** A run that does not get past the resolvers and the check emits at most
    the secret registration, and fails. *)
Lemma main_body_before_gate (w : World) :
  (exists c, resolves w c /\ Forall (fun p => existsSync w p = true) (r_files c))
  \/ ((fst (main_body w) = [] \/ exists t, fst (main_body w) = [EvSetSecret t])
      /\ exists e, snd (main_body w) = Throw e).
Proof.
  unfold main_body.
  pose proof (RunFacts.getInputBranch_silent w) as Sb.
  destruct (getInputBranch w) as [tb [branch|e]] eqn:Eb; cbn in Sb; subst tb;
    [rewrite bind_unit | right; cbn; eauto].
  pose proof (RunFacts.getInputDeleteFiles_silent w) as Sd.
  destruct (getInputDeleteFiles w) as [td [deletes|e]] eqn:Ed; cbn in Sd; subst td;
    [rewrite bind_unit | right; cbn; eauto].
  pose proof (RunFacts.getInputFiles_silent w) as Sf.
  destruct (getInputFiles w) as [tf [files|e]] eqn:Ef; cbn in Sf; subst tf;
    [rewrite bind_unit | right; cbn; eauto].
  pose proof (RunFacts.getInputCommitMessage_silent w) as Sm.
  destruct (getInputCommitMessage w) as [tm [message|e]] eqn:Em; cbn in Sm; subst tm;
    [rewrite bind_unit | right; cbn; eauto].
  pose proof (RunFacts.getInputRepository_silent w) as Sr.
  destruct (getInputRepository w) as [tr [repo|e]] eqn:Er; cbn in Sr; subst tr;
    [rewrite bind_unit | right; cbn; eauto].
  destruct (getInputToken w) as [tt' [token|e]] eqn:Et.
  - assert (Ht : snd (getInputToken w) = Ok token) by now rewrite Et.
    apply RunFacts.getInputToken_trace in Ht. rewrite Et in Ht. injection Ht as ->.
    pose proof (RunFacts.checkFilesExist_silent w files) as Sc.
    destruct (checkFilesExist w files) as [tc [[]|e]] eqn:Ec; cbn in Sc; subst tc.
    + left. exists {| r_branch := branch; r_deletes := deletes; r_files := files;
                      r_message := message; r_repository := repo; r_token := token |}.
      split; [|eapply checkFilesExist_ok; exact Ec].
      unfold resolves. cbn. now rewrite Eb, Ed, Ef, Em, Er, Et.
    + right. rewrite MFacts.bind_ok. cbn. eauto.
  - assert (Ht : snd (getInputToken w) = Throw e) by now rewrite Et.
    apply getInputToken_throw in Ht. rewrite Et in Ht. cbn in Ht. subst tt'.
    right. cbn. eauto.
Qed.

(** The whole of [createCommit]. *)
Lemma createCommit_run (w : World) (token : jsstring) (owner repo : option jsstring)
    (branch : jsstring) (message : CommitMessageType)
    (fileActions : RepoFilesActionType) :
  createCommit w token owner repo branch message fileActions
  = match snd (build_fileChanges w fileActions) with
    | Ok fc =>
        ([EvMutation token mutation_query (commit_input w owner repo branch message fc)],
         match requestMutation w token mutation_query
                 (commit_input w owner repo branch message fc) with
         | Ok resp => snd (check_errors resp)
         | Throw e => Throw e
         end)
    | Throw e => ([], Throw e)
    end.
Proof.
  unfold createCommit. rewrite build_fileChanges_run. cbn [snd].
  destruct (read_all w _) as [l|e]; [|reflexivity].
  rewrite bind_unit.
  unfold emit. rewrite MFacts.bind_ok. cbn [fst snd].
  fold (commit_input w owner repo branch message
          {| additions :=
               if bool_decide (createFiles fileActions <> None)
                  || bool_decide (modifyFiles fileActions <> None)
               then Some l else None;
             deletions :=
               option_map (map (fun f => {| path := f; contents := None |}))
                 (deleteFiles fileActions) |}).
  destruct (requestMutation w token mutation_query _) as [resp|e]; unfold lift.
  - rewrite bind_unit. pose proof (check_errors_silent resp) as Hs.
    destruct (check_errors resp); cbn in *. now subst.
  - reflexivity.
Qed.

(** What the rest of the block emits: the query, notices, and then
    nothing more, or the mutation, alone or followed by the success
    line. *)
Lemma after_gate_trace (w : World) (branch : jsstring) (deletes files : list jsstring)
    (message : CommitMessageType) (repo : RepositoryType) (token : jsstring) :
  exists notices tail,
    fst (after_gate w branch deletes files message repo token)
    = EvQuery token
        (repo_files_query (owner repo) (repository repo) branch files deletes)
        :: notices ++ tail
    /\ Forall (fun e => exists f, e = notice f) notices
    /\ (tail = []
        \/ exists tr r fc rest,
            getRepoFiles w token (owner repo) (repository repo) branch files deletes
            = (tr, Ok r)
            /\ tail = EvMutation token mutation_query
                        (commit_input w (owner repo) (repository repo) branch
                           (sent_message message r) fc) :: rest
            /\ (rest = [] \/ exists url, rest = [EvInfo (js "commit success: " ++ url)])).
Proof.
  unfold after_gate.
  destruct (getRepoFiles_trace w token (owner repo) (repository repo) branch
              files deletes) as (notices & Et & Hn).
  destruct (getRepoFiles w token (owner repo) (repository repo) branch files deletes)
    as [tr [r|e]] eqn:Eg; cbn [fst] in Et; subst tr.
  - rewrite MFacts.bind_ok. cbn [fst]. cbv zeta.
    set (msg' := if bool_decide (default_ message = Some true) then _ else message).
    assert (Hinput : forall fc,
               commit_input w (owner repo) (repository repo) branch msg' fc
               = commit_input w (owner repo) (repository repo) branch
                   (sent_message message r) fc).
    { intros fc. unfold commit_input, sent_message, msg'.
      destruct (bool_decide (default_ message = Some true)); reflexivity. }
    rewrite createCommit_run.
    destruct (snd (build_fileChanges w r)) as [fc|e].
    + rewrite Hinput.
      destruct (requestMutation w token mutation_query _) as [resp|e].
      * destruct (snd (check_errors resp)) as [resp'|e] eqn:Ec.
        -- rewrite MFacts.bind_ok. cbn [fst].
           exists notices. eexists. split; [reflexivity|]. split; [exact Hn|].
           right. exists (EvQuery token
                            (repo_files_query (owner repo) (repository repo) branch files
                               deletes) :: notices), r, fc.
           eexists. split; [reflexivity|]. split; [reflexivity|].
           destruct (data resp'); cbn; eauto.
        -- cbn [bind fst]. exists notices. eexists. split; [reflexivity|].
           split; [exact Hn|]. right. do 3 eexists. exists [].
           split; [reflexivity|]. split; [reflexivity|]. now left.
      * cbn [bind fst]. exists notices. eexists. split; [reflexivity|].
        split; [exact Hn|]. right. do 3 eexists. exists [].
        split; [reflexivity|]. split; [reflexivity|]. now left.
    + cbn [bind fst]. exists notices, []. rewrite !app_nil_r. repeat split; auto.
  - cbn [bind fst]. exists notices, []. rewrite !app_nil_r. repeat split; auto.
Qed.

(** The trace of a run, by how far it got. *)
Lemma main_trace_cases (w : World) :
  (exists pre sf,
      fst (main w) = pre ++ sf
      /\ (pre = [] \/ exists t, pre = [EvSetSecret t])
      /\ (sf = [] \/ exists m, sf = [EvSetFailed m]))
  \/ (exists c notices tail sf,
         resolves w c
         /\ fst (main w)
            = EvSetSecret (r_token c)
                :: EvQuery (r_token c)
                     (repo_files_query (owner (r_repository c))
                        (repository (r_repository c)) (r_branch c) (r_files c)
                        (r_deletes c))
                :: notices ++ tail ++ sf
         /\ Forall (fun e => exists f, e = notice f) notices
         /\ (tail = []
             \/ exists tr r fc rest,
                 getRepoFiles w (r_token c) (owner (r_repository c))
                   (repository (r_repository c)) (r_branch c) (r_files c) (r_deletes c)
                 = (tr, Ok r)
                 /\ tail = EvMutation (r_token c) mutation_query
                             (commit_input w (owner (r_repository c))
                                (repository (r_repository c)) (r_branch c)
                                (sent_message (r_message c) r) fc) :: rest
                 /\ (rest = [] \/ exists url, rest = [EvInfo (js "commit success: " ++ url)]))
         /\ (sf = [] \/ exists m, sf = [EvSetFailed m])).
Proof.
  rewrite main_run. cbn [fst].
  assert (Hsf : forall r : result unit,
             match r with Throw (ThrowError msg) => [EvSetFailed msg] | _ => [] end = []
             \/ exists m, match r with Throw (ThrowError msg) => [EvSetFailed msg] | _ => [] end
                          = [EvSetFailed m]).
  { intros [[]|[m|v]]; eauto. }
  destruct (main_body_before_gate w) as [(c & Hc & Hex)|[Hpre _]].
  - right. rewrite (main_body_after_gate w c Hc Hex), MFacts.bind_ok. cbn [fst snd app].
    destruct (after_gate_trace w (r_branch c) (r_deletes c) (r_files c) (r_message c)
                (r_repository c) (r_token c)) as (notices & tail & -> & Hn & Ht).
    exists c, notices, tail. eexists. split; [exact Hc|]. split.
    + cbn [app]. rewrite <- !app_assoc. reflexivity.
    + auto.
  - left. do 2 eexists. split; [reflexivity|]. split; [exact Hpre | apply Hsf].
Qed.

Lemma requests_notices (notices : list event) :
  Forall (fun e => exists f, e = notice f) notices -> requests notices = [].
Proof.
  induction 1 as [|e l [f ->] _ IH]; [reflexivity|]. exact IH.
Qed.

Lemma requests_app (a b : list event) : requests (a ++ b) = requests a ++ requests b.
Proof. apply List.filter_app. Qed.

(** X15.  A run sends no request, or it registers the token as a secret,
    then sends the query with that token, and after it at most one more
    request: the mutation, with the same token. *)
Theorem main_request_order (w : World) :
  requests (fst (main w)) = []
  \/ exists t q rest,
      fst (main w) = EvSetSecret t :: EvQuery t q :: rest
      /\ (requests rest = []
          \/ exists mq input, requests rest = [EvMutation t mq input]).
Proof.
  destruct (main_trace_cases w)
    as [(pre & sf & -> & Hpre & Hsf)
       |(c & notices & tail & sf & _ & -> & Hn & Ht & Hsf)].
  - left. rewrite requests_app.
    destruct Hpre as [->|[t ->]], Hsf as [->|[m ->]]; reflexivity.
  - right. do 3 eexists. split; [reflexivity|].
    rewrite !requests_app, (requests_notices _ Hn). cbn [app].
    assert (Es : requests sf = []) by (destruct Hsf as [->|[m ->]]; reflexivity).
    rewrite Es, app_nil_r.
    destruct Ht as [->|(tr & r & fc & rest & _ & -> & Hrest)]; [now left|].
    right. do 2 eexists. cbn. destruct Hrest as [->|[url ->]]; reflexivity.
Qed.

Lemma Forall_not_setFailed (notices : list event) :
  Forall (fun e => exists f, e = notice f) notices ->
  forall m, EvSetFailed m ∉ notices.
Proof.
  intros H m Hin. rewrite Forall_forall in H. destruct (H _ Hin) as [f E]. discriminate E.
Qed.

Lemma main_body_no_setFailed (w : World) (m : jsstring) :
  EvSetFailed m ∉ fst (main_body w).
Proof.
  destruct (main_body_before_gate w) as [(c & Hc & Hex)|[[->|[t ->]] _]].
  - rewrite (main_body_after_gate w c Hc Hex), MFacts.bind_ok. cbn [fst app].
    destruct (after_gate_trace w (r_branch c) (r_deletes c) (r_files c) (r_message c)
                (r_repository c) (r_token c)) as (notices & tail & -> & Hn & Ht).
    intros [E|[E|[Hin|Hin]%elem_of_app]%elem_of_cons]%elem_of_cons; try discriminate E.
    + now apply (Forall_not_setFailed _ Hn m).
    + destruct Ht as [->|(tr & r & fc & rest & _ & -> & Hrest)]; [inversion Hin|].
      apply elem_of_cons in Hin as [E|Hin]; [discriminate E|].
      destruct Hrest as [->|[url ->]]; [inversion Hin|].
      apply list_elem_of_singleton in Hin. discriminate Hin.
  - intros H. inversion H.
  - intros E%list_elem_of_singleton. discriminate E.
Qed.


(** X17.  The mutation of a run carries what the resolvers returned: the
    token, the branch, [OWNER/REPOSITORY], the head commit of the
    environment and the headline; the body is the resolved one, or for the
    default message the body generated from the classification of this
    run.  The flag [default] is not sent. *)
Theorem main_commit_request (w : World) (tok q : jsstring)
    (input : CreateCommitInputType) :
  EvMutation tok q input ∈ fst (main w) ->
  exists c tr r,
    resolves w c
    /\ getRepoFiles w (r_token c) (owner (r_repository c)) (repository (r_repository c))
         (r_branch c) (r_files c) (r_deletes c) = (tr, Ok r)
    /\ tok = r_token c
    /\ branchName input = r_branch c
    /\ repositoryNameWithOwner input
       = tpl (owner (r_repository c)) ++ js "/" ++ tpl (repository (r_repository c))
    /\ expectedHeadOid input = GITHUB_SHA w
    /\ message input
       = {| default_ := None;
            headline := headline (r_message c);
            body := if bool_decide (default_ (r_message c) = Some true)
                    then Some (generateDefaultCommitMessageBody r)
                    else body (r_message c) |}.
Proof.
  intros Hin.
  destruct (main_trace_cases w)
    as [(pre & sf & E & Hpre & Hsf)
       |(c & notices & tail & sf & Hc & E & Hn & Ht & Hsf)]; rewrite E in Hin.
  - exfalso. apply elem_of_app in Hin as [Hin|Hin].
    + destruct Hpre as [->|[t ->]]; [inversion Hin|].
      apply list_elem_of_singleton in Hin. discriminate Hin.
    + destruct Hsf as [->|[m ->]]; [inversion Hin|].
      apply list_elem_of_singleton in Hin. discriminate Hin.
  - apply elem_of_cons in Hin as [E0|Hin]; [discriminate E0|].
    apply elem_of_cons in Hin as [E0|Hin]; [discriminate E0|].
    apply elem_of_app in Hin as [Hin|Hin].
    { exfalso. rewrite Forall_forall in Hn. destruct (Hn _ Hin) as [f E0]. discriminate E0. }
    apply elem_of_app in Hin as [Hin|Hin].
    + destruct Ht as [->|(tr & r & fc & rest & Hg & -> & Hrest)]; [inversion Hin|].
      apply elem_of_cons in Hin as [E0|Hin].
      * injection E0 as -> -> ->. exists c, tr, r.
        split; [exact Hc|]. split; [exact Hg|]. repeat split; reflexivity.
      * exfalso. destruct Hrest as [->|[url ->]]; [inversion Hin|].
        apply list_elem_of_singleton in Hin. discriminate Hin.
    + exfalso. destruct Hsf as [->|[m ->]]; [inversion Hin|].
      apply list_elem_of_singleton in Hin. discriminate Hin.
Qed.

(** X17 at a run with the default message that creates one file. *)
Lemma main_commit_request_sample :
  exists c tr r,
    resolves (sample_world [(js "files", js "a.txt")] [js "a.txt"] [] (remote_has [])
                commit_ok) c
    /\ getRepoFiles
         (sample_world [(js "files", js "a.txt")] [js "a.txt"] [] (remote_has []) commit_ok)
         (r_token c) (owner (r_repository c)) (repository (r_repository c))
         (r_branch c) (r_files c) (r_deletes c) = (tr, Ok r)
    /\ js "ghs_sample" = r_token c
    /\ js "main" = r_branch c
    /\ js "octocat/Hello-World"
       = tpl (owner (r_repository c)) ++ js "/" ++ tpl (repository (r_repository c))
    /\ js "7fd1a60b01f91b314f59955a4e4d4e80d8edf11d"
       = js "7fd1a60b01f91b314f59955a4e4d4e80d8edf11d"
    /\ {| default_ := None; headline := js "committed files";
          body := Some (js "created  'a.txt'") |}
       = {| default_ := None;
            headline := headline (r_message c);
            body := if bool_decide (default_ (r_message c) = Some true)
                    then Some (generateDefaultCommitMessageBody r)
                    else body (r_message c) |}.
Proof.
  apply (main_commit_request
           (sample_world [(js "files", js "a.txt")] [js "a.txt"] [] (remote_has [])
              commit_ok)
           (js "ghs_sample") mutation_query
           {| branchName := js "main";
              repositoryNameWithOwner := js "octocat/Hello-World";
              message := {| default_ := None; headline := js "committed files";
                            body := Some (js "created  'a.txt'") |};
              fileChanges :=
                {| additions := Some [{| path := js "a.txt";
                                         contents := Some (js "Zm9v") |}];
                   deletions := None |};
              expectedHeadOid := js "7fd1a60b01f91b314f59955a4e4d4e80d8edf11d" |}).
  rewrite list_elem_of_In. vm_compute. right. right. left. reflexivity.
Defined.

(** ** The alias as a field name *)

Lemma alphabet_alnum (d : Z) :
  0 <= d < 58 -> forallb is_alnum (alphabet_at d) = true.
Proof.
  intros Hd. replace d with (Z.of_nat (Z.to_nat d)) by lia.
  assert (Hn : (Z.to_nat d < 58)%nat) by lia.
  generalize dependent (Z.to_nat d). clear. intros n Hn.
  do 58 (destruct n as [|n]; [vm_compute; reflexivity|]). lia.
Qed.

Lemma forallb_repeat {A : Type} (f : A -> bool) (x : A) (k : nat) :
  f x = true -> forallb f (repeat x k) = true.
Proof. intros H. induction k; cbn; [reflexivity | now rewrite H]. Qed.

Lemma base58Encode_alnum (bs : list byte) :
  forallb is_alnum (base58Encode (InBytes bs)) = true.
Proof.
  destruct (Base58Facts.base58Encode_shape bs) as (ds & Hr & _ & _ & ->).
  rewrite forallb_app, forallb_repeat by reflexivity. cbn [andb].
  apply Forall_rev in Hr. induction Hr as [|d l Hd _ IH]; [reflexivity|].
  cbn [map concat]. now rewrite forallb_app, alphabet_alnum, IH.
Qed.

(** X18.  The alias of any path is an underscore followed by letters and
    digits only, so it can stand as a field name of the query. *)
Theorem alias_is_name (p : jsstring) :
  exists rest, alias p = 95%N :: rest /\ forallb is_alnum rest = true.
Proof.
  unfold alias. rewrite AliasFacts.encode_string_bytes.
  eexists. split; [reflexivity|]. apply base58Encode_alnum.
Qed.

(** X19.  Two paths get the same alias exactly when their code units have
    the same low eight bits, one by one. *)
Theorem alias_equal_iff_low_bytes (p q : jsstring) :
  alias p = alias q <-> map to_uint8 p = map to_uint8 q.
Proof. apply AliasFacts.alias_eq_iff. Qed.



(** X21.  A run that logs the success line did not fail: the [try] block
    returned, and the run has no failure report. *)
Theorem main_success_excludes_failure (w : World) (url : jsstring) :
  EvInfo (js "commit success: " ++ url) ∈ fst (main w) ->
  main_body w = (fst (main w), Ok tt)
  /\ forall m, EvSetFailed m ∉ fst (main w).
Proof.
  rewrite main_run. cbn [fst]. intros Hin.
  pose proof (main_body_no_setFailed w) as Hno.
  pose proof (main_body_throw_quiet w) as Hq.
  destruct (main_body w) as [tb [[]|e]]; cbn [fst snd] in *.
  - rewrite app_nil_r. split; [reflexivity | exact Hno].
  - exfalso. specialize (Hq tb e eq_refl). rewrite Forall_forall in Hq.
    apply elem_of_app in Hin as [Hin|Hin].
    + destruct (Hq _ Hin) as [file E]. discriminate E.
    + destruct e as [m|v]; [|inversion Hin].
      apply list_elem_of_singleton in Hin. discriminate Hin.
Qed.

(** X21 at a run that succeeds. *)
Lemma main_success_excludes_failure_sample :
  main_body (sample_world [(js "files", js "a.txt")] [js "a.txt"] [] (remote_has [])
               commit_ok)
  = (fst (main (sample_world [(js "files", js "a.txt")] [js "a.txt"] [] (remote_has [])
                  commit_ok)), Ok tt)
  /\ forall m,
      EvSetFailed m
        ∉ fst (main (sample_world [(js "files", js "a.txt")] [js "a.txt"] []
                       (remote_has []) commit_ok)).
Proof.
  apply (main_success_excludes_failure
           (sample_world [(js "files", js "a.txt")] [js "a.txt"] [] (remote_has [])
              commit_ok)
           (js "https://github.test/octocat/Hello-World/commit/1")).
  rewrite list_elem_of_In. vm_compute. right. right. right. left. reflexivity.
Defined.
